(** * ezdxf.math.polyline: arc-length measurement on polylines

    A shallow embedding of [ConstructionPolyline] and [ApproxParamT]
    (src/ezdxf/math/polyline.py), in two readings of Python's floats.

    In the first reading (modules [Vec3] and [polyline]) floats are real
    numbers: every arithmetic operation is exact and there is no NaN or
    infinity.  It carries the properties that rest on comparisons and on
    the stations as the code accumulates them.

    In the second reading (module [Binary64]) floats are IEEE 754 binary64
    numbers and every operation is rounded.  It carries the properties of
    [ApproxParamT.distance], [ApproxParamT.param_t] and
    [ConstructionPolyline.divide_by_length], which depend on how a quotient
    or a sum is rounded.

    Python ints are [Z]; list indices produced by a search are natural
    numbers injected into [Z].  Exceptions are values of [exn], threaded
    through the error monad [result]. *)

From Stdlib Require Import PrimFloat.
From Stdlib Require FloatOps SpecFloat FloatAxioms FloatLemmas Uint63.
From Equations Require Import Equations.
From Stdlib Require Import Reals Lra Lia List ZArith String Bool.
Import ListNotations.

Local Open Scope R_scope.
Set Warnings "-inexact-float".

(** ** Python runtime *)

Module Py.

(** The exceptions the module can raise.  The two formatted messages of
    [divide] and [divide_by_length] keep their fixed prefix only. *)
Inductive exn : Type :=
| ValueError (msg : string)
| ArithmeticError (msg : string)
| ZeroDivisionError
| IndexError
| AssertionError
| OverflowError.

Inductive result (A : Type) : Type :=
| Ok (a : A)
| Raise (e : exn).
Arguments Ok {A} a.
Arguments Raise {A} e.

Definition bind {A B : Type} (m : result A) (k : A -> result B) : result B :=
  match m with
  | Ok a => k a
  | Raise e => Raise e
  end.

(** [len(l)] *)
Definition len {A : Type} (l : list A) : Z := Z.of_nat (List.length l).

(** [l[i]] for an int [i]: negative indices count from the end, anything
    outside the list raises IndexError. *)
Definition getitem {A : Type} (l : list A) (i : Z) : result A :=
  let j := if (i <? 0)%Z then (i + len l)%Z else i in
  if (j <? 0)%Z then Raise IndexError
  else match nth_error l (Z.to_nat j) with
       | Some a => Ok a
       | None => Raise IndexError
       end.

(** [x / y] on floats. *)
Definition truediv (x y : R) : result R :=
  if Req_dec_T y 0 then Raise ZeroDivisionError else Ok (x / y).

(** [bisect.bisect_left(a, x)]: the loop of the standard library,
    [lo = 0], [hi = len(a)],
    [while lo < hi: mid = (lo + hi) // 2;
                    if a[mid] < x: lo = mid + 1 else: hi = mid]. *)
Equations? bisect_loop (a : list R) (x : R) (lo hi : nat) : nat
  by wf (hi - lo)%nat lt :=
  bisect_loop a x lo hi with lt_dec lo hi => {
    | left _ with Rlt_dec (nth ((lo + hi) / 2)%nat a 0) x => {
        | left _ := bisect_loop a x (S ((lo + hi) / 2)%nat) hi;
        | right _ := bisect_loop a x lo ((lo + hi) / 2)%nat };
    | right _ := lo }.
Proof.
  all: change (fst (Nat.divmod (lo + hi) 1 0 1)) with ((lo + hi) / 2)%nat;
    pose proof (Nat.div_mod_eq (lo + hi) 2);
    pose proof (Nat.mod_upper_bound (lo + hi) 2); lia.
Qed.

Definition bisect_left (a : list R) (x : R) : nat :=
  bisect_loop a x 0 (List.length a).

(** A slice object [start:stop:step]; [None] is an omitted bound. *)
Record slice : Type := mkslice {
  start : option Z;
  stop : option Z;
  step : option Z
}.

(** Clamping of one explicit slice bound against the list length. *)
Definition adjust_index (n stp i : Z) : Z :=
  if (i <? 0)%Z then
    let i' := (i + n)%Z in
    if (i' <? 0)%Z then (if (stp <? 0)%Z then (-1)%Z else 0%Z) else i'
  else if (n <=? i)%Z then (if (stp <? 0)%Z then (n - 1)%Z else n)
  else i.

(** [slice.indices(n)] together with the number of selected elements. *)
Definition slice_indices (s : slice) (n : Z) : result (Z * Z * Z) :=
  let stp := match step s with Some k => k | None => 1%Z end in
  if (stp =? 0)%Z then Raise (ValueError "slice step cannot be zero"%string)
  else
    let lo := match start s with
              | Some i => adjust_index n stp i
              | None => if (stp <? 0)%Z then (n - 1)%Z else 0%Z
              end in
    let hi := match stop s with
              | Some i => adjust_index n stp i
              | None => if (stp <? 0)%Z then (-1)%Z else n
              end in
    let count :=
      if (stp <? 0)%Z then
        (if (hi <? lo)%Z then ((lo - hi - 1) / (- stp) + 1)%Z else 0%Z)
      else
        (if (lo <? hi)%Z then ((hi - lo - 1) / stp + 1)%Z else 0%Z) in
    Ok (lo, stp, count).

(** [l[start:stop:step]] *)
Definition getslice {A : Type} (l : list A) (s : slice) : result (list A) :=
  bind (slice_indices s (len l)) (fun '(lo, stp, count) =>
    Ok (flat_map
          (fun k => match nth_error l (Z.to_nat (lo + Z.of_nat k * stp)) with
                    | Some a => [a]
                    | None => []
                    end)
          (seq 0 (Z.to_nat count)))).

End Py.

Import Py.

Notation "x <- m ;; k" := (bind m (fun x => k))
  (at level 61, m at next level, right associativity).
Notation "' p <- m ;; k" := (bind m (fun p => k))
  (at level 61, p pattern, m at next level, right associativity).

(** ** ezdxf.math: Vec3 and linspace *)

Module Vec3.

(** Modelled from the spec: the class [ezdxf.math.Vec3], whose source is
    outside polyline.py.  The spec asks of points only subtraction,
    magnitude, linear interpolation and equality within a tolerance; they
    are given here for three real coordinates, the comparison after
    [math.isclose] applied to each coordinate. *)
Record t : Type := mk { x : R; y : R; z : R }.

Definition sub (a b : t) : t := mk (x a - x b) (y a - y b) (z a - z b).
Definition add (a b : t) : t := mk (x a + x b) (y a + y b) (z a + z b).
Definition mul (a : t) (k : R) : t := mk (x a * k) (y a * k) (z a * k).

Definition magnitude (a : t) : R :=
  sqrt (x a * x a + y a * y a + z a * z a).

(** [self.lerp(other, factor)] *)
Definition lerp (self other : t) (factor : R) : t :=
  add self (mul (sub other self) factor).

Definition REL_TOL : R := 1e-9.
Definition ABS_TOL : R := 1e-12.

Definition float_isclose (a b rel_tol abs_tol : R) : bool :=
  if Rle_dec (Rabs (a - b)) (Rmax (rel_tol * Rmax (Rabs a) (Rabs b)) abs_tol)
  then true else false.

(** [self.isclose(other, rel_tol=rel_tol)] *)
Definition isclose (self other : t) (rel_tol : R) : bool :=
  float_isclose (x self) (x other) rel_tol ABS_TOL
  && float_isclose (y self) (y other) rel_tol ABS_TOL
  && float_isclose (z self) (z other) rel_tol ABS_TOL.

End Vec3.

(** [NULLVEC] and [Vec3()] *)
Definition NULLVEC : Vec3.t := Vec3.mk 0 0 0.

(** Modelled from the spec: the function [ezdxf.math.linspace], whose source
    is outside polyline.py; the spec describes it as [num] evenly spaced
    values between two bounds, both included. *)
Definition linspace (start stop : R) (num : Z) : list R :=
  match Z.to_nat num with
  | O => []
  | S O => [start]
  | S n => map (fun i => start + INR i * ((stop - start) / INR n)) (seq 0 (S n))
  end.

(** A finished generator: the values it yielded, and the exception that
    ended it, if any. *)
Definition generated (A : Type) : Type := (list A * option exn)%type.

(** [for d in ds: yield f(d)] *)
Fixpoint yield_each {A B : Type} (f : A -> result B) (ds : list A)
  : generated B :=
  match ds with
  | [] => ([], None)
  | d :: ds' =>
      match f d with
      | Raise e => ([], Some e)
      | Ok v => let '(vs, e) := yield_each f ds' in (v :: vs, e)
      end
  end.

(** ** polyline.py *)

Module polyline.

Definition REL_TOL : R := 1e-9.

(** [_distances(vertices)]: the loop state is
    [(current_station, distances, prev_vertex)]. *)
Definition _distances_step (st : R * list R * Vec3.t) (vertex : Vec3.t)
  : R * list R * Vec3.t :=
  let '(current_station, distances, prev_vertex) := st in
  match distances with
  | _ :: _ =>
      let distant_vec := Vec3.sub vertex prev_vertex in
      let current_station := current_station + Vec3.magnitude distant_vec in
      (current_station, distances ++ [current_station], vertex)
  | [] => (current_station, distances ++ [current_station], vertex)
  end.

Definition _distances (vertices : list Vec3.t) : list R :=
  let '(_, distances, _) :=
    fold_left _distances_step vertices (0, [], NULLVEC) in
  distances.

Module ConstructionPolyline.

Record t : Type := mk {
  _rel_tol : R;
  _vertices : list Vec3.t;
  _distances : list R
}.

(** [ConstructionPolyline(vertices, close, rel_tol)].  [self._vertices] and
    [v3list] are one list object, so the vertex appended on closing is a
    vertex of the polyline.  Both [v3list[0]] and [v3list[-1]] are read
    under [len(v3list) > 2]. *)
Definition __init__ (vertices : list Vec3.t) (close : bool) (rel_tol : R) : t :=
  let v3list := vertices in
  let v3list :=
    if close && (2 <? len v3list)%Z then
      if negb (Vec3.isclose (nth 0 v3list NULLVEC) (last v3list NULLVEC) rel_tol)
      then v3list ++ [nth 0 v3list NULLVEC]
      else v3list
    else v3list in
  mk rel_tol v3list (polyline._distances v3list).

(** [len(self)] *)
Definition __len__ (self : t) : Z := len (_vertices self).

(** [self[item]]: a vertex for an int, a new polyline for a slice. *)
Inductive item : Type :=
| Index (i : Z)
| Slice (s : slice).

Definition __getitem__ (self : t) (it : item) : result (Vec3.t + t) :=
  match it with
  | Index i => v <- getitem (_vertices self) i ;; Ok (inl v)
  | Slice s =>
      vs <- getslice (_vertices self) s ;;
      Ok (inr (__init__ vs false (_rel_tol self)))
  end.

Definition length (self : t) : R :=
  match _distances self with
  | _ :: _ => last (_distances self) 0
  | [] => 0
  end.

Definition is_closed (self : t) : bool :=
  if (2 <? len (_vertices self))%Z then
    Vec3.isclose (nth 0 (_vertices self) NULLVEC)
                 (last (_vertices self) NULLVEC) (_rel_tol self)
  else false.

Definition data (self : t) (index : Z) : result (R * R * Vec3.t) :=
  let vertices := _vertices self in
  match vertices with
  | [] => Raise (ValueError "empty polyline")
  | _ :: _ =>
      let distances := _distances self in
      if (index =? 0)%Z then
        v <- getitem vertices 0 ;; Ok (0, 0, v)
      else
        prev_distance <- getitem distances (index - 1) ;;
        current_distance <- getitem distances index ;;
        vertex <- getitem vertices index ;;
        Ok (current_distance, current_distance - prev_distance, vertex)
  end.

Definition _index_at (self : t) (distance : R) : Z :=
  Z.of_nat (bisect_left (_distances self) distance).

Definition index_at (self : t) (distance : R) : Z :=
  if Rle_dec distance 0 then 0%Z
  else if Rge_dec distance (length self) then Z.max 0 (__len__ self - 1)
  else _index_at self distance.

(** The loop [while index0 > 0 and distance0 == distance1] of [_vertex_at];
    [index0] is non-negative there and is counted down as a natural number. *)
Fixpoint skip_coincident (distances : list R) (index0 : nat)
  (distance0 distance1 : R) : result (Z * R) :=
  match index0 with
  | S index0' =>
      if Req_dec_T distance0 distance1 then
        distance0' <- getitem distances (Z.of_nat index0') ;;
        skip_coincident distances index0' distance0' distance1
      else Ok (Z.of_nat index0, distance0)
  | O => Ok (0%Z, distance0)
  end.

Definition _vertex_at (self : t) (distance : R) : result Vec3.t :=
  let vertices := _vertices self in
  let distances := _distances self in
  let index1 := _index_at self distance in
  if (index1 =? 0)%Z then getitem vertices 0
  else
    let index0 := (index1 - 1)%Z in
    distance1 <- getitem distances index1 ;;
    distance0 <- getitem distances index0 ;;
    '(index0, distance0) <-
      skip_coincident distances (Z.to_nat index0) distance0 distance1 ;;
    if Req_dec_T distance0 distance1 then
      Raise (ArithmeticError "internal interpolation error")
    else
      factor <- truediv (distance - distance0) (distance1 - distance0) ;;
      v0 <- getitem vertices index0 ;;
      v1 <- getitem vertices index1 ;;
      Ok (Vec3.lerp v0 v1 factor).

Definition vertex_at (self : t) (distance : R) : result Vec3.t :=
  if Rlt_dec distance 0 then Raise (ValueError "distance out of range")
  else if Rgt_dec distance (length self)
  then Raise (ValueError "distance out of range")
  else if (__len__ self <? 2)%Z
  then Raise (ValueError "not enough vertices for interpolation")
  else _vertex_at self distance.

Definition divide (self : t) (count : Z) : generated Vec3.t :=
  if (count <? 2)%Z then ([], Some (ValueError "invalid count"))
  else yield_each (_vertex_at self) (linspace 0 (length self) count).

(** The loop [while distance <= total_length] of [divide_by_length]: the
    yielded vertices, then the value of [vertex] when the loop is left or
    the exception that ended it.  [None] when [fuel] iterations do not
    reach the end of the loop. *)
Fixpoint divide_by_length_loop (fuel : nat) (self : t)
  (total_length length distance : R) (vertex : Vec3.t)
  : option (list Vec3.t * result Vec3.t) :=
  match fuel with
  | O => None
  | S fuel' =>
      if Rle_dec distance total_length then
        match _vertex_at self distance with
        | Raise e => Some ([], Raise e)
        | Ok vertex' =>
            match divide_by_length_loop fuel' self total_length length
                    (distance + length) vertex' with
            | Some (ys, r) => Some (vertex' :: ys, r)
            | None => None
            end
        end
      else Some ([], Ok vertex)
  end.

Definition divide_by_length (fuel : nat) (self : t) (length : R)
  (force_last : bool) : option (generated Vec3.t) :=
  if Rle_dec length 0 then Some ([], Some (ValueError "invalid length"))
  else if (__len__ self <? 2)%Z
  then Some ([], Some (ValueError "not enough vertices for interpolation"))
  else
    let total_length := ConstructionPolyline.length self in
    match divide_by_length_loop fuel self total_length length 0 NULLVEC with
    | None => None
    | Some (ys, Raise e) => Some (ys, Some e)
    | Some (ys, Ok vertex) =>
        if force_last
           && negb (Vec3.isclose vertex (last (_vertices self) NULLVEC)
                      Vec3.REL_TOL)
        then Some (ys ++ [last (_vertices self) NULLVEC], None)
        else Some (ys, None)
    end.

End ConstructionPolyline.

(** The protocol [SupportsPointMethod]: anything with a [point] method. *)
Class SupportsPointMethod (C : Type) : Type := {
  point : C -> R -> Vec3.t
}.

Module ApproxParamT.

Record t : Type := mk {
  _polyline : ConstructionPolyline.t;
  _max_t : R;
  _step : R
}.

(** [ApproxParamT(curve, max_t=max_t, segments=segments)] *)
Definition __init__ {C : Type} `{SupportsPointMethod C}
  (curve : C) (max_t : R) (segments : Z) : result t :=
  if (0 <? segments)%Z then
    let poly :=
      ConstructionPolyline.__init__
        (map (point curve) (linspace 0 max_t (segments + 1))) false REL_TOL in
    step <- truediv max_t (IZR segments) ;;
    Ok (mk poly max_t step)
  else Raise AssertionError.

Definition max_t (self : t) : R := _max_t self.

Definition polyline (self : t) : ConstructionPolyline.t := _polyline self.

Definition param_t (self : t) (distance : R) : result R :=
  let poly := _polyline self in
  if Rge_dec distance (ConstructionPolyline.length poly) then Ok (_max_t self)
  else
    let t_step := _step self in
    let i := ConstructionPolyline.index_at poly distance in
    '(station, d0, _) <- ConstructionPolyline.data poly i ;;
    let t := t_step * IZR i in
    t <- (if Rgt_dec d0 1e-12 then
            q <- truediv (t_step * (station - distance)) d0 ;; Ok (t - q)
          else Ok t) ;;
    Ok (Rmin (_max_t self) t).

End ApproxParamT.

End polyline.

Import polyline.
Module CP := polyline.ConstructionPolyline.
Module AP := polyline.ApproxParamT.

(** ** The vocabulary of the specification *)

(** The failure names of the specification, as the exceptions of the code. *)
Definition OutOfRange : exn := ValueError "distance out of range".
Definition InsufficientVertices : exn :=
  ValueError "not enough vertices for interpolation".
Definition EmptyPolyline : exn := ValueError "empty polyline".
Definition InternalInconsistency : exn :=
  ArithmeticError "internal interpolation error".

(** A list of floats is non-decreasing. *)
Definition nondecreasing (l : list R) : Prop :=
  forall i j : nat, (i <= j < List.length l)%nat -> nth i l 0 <= nth j l 0.

(** The cumulative-distance invariant of a polyline: as many distances as
    vertices, the first distance is 0, every other one adds the length of
    the segment that ends at its vertex. *)
Definition distances_invariant (p : CP.t) : Prop :=
  List.length (CP._distances p) = List.length (CP._vertices p)
  /\ (CP._vertices p <> [] -> nth 0 (CP._distances p) 0 = 0)
  /\ forall i : nat, (0 < i < List.length (CP._vertices p))%nat ->
       nth i (CP._distances p) 0
       = nth (i - 1) (CP._distances p) 0
         + Vec3.magnitude (Vec3.sub (nth i (CP._vertices p) NULLVEC)
                                    (nth (i - 1) (CP._vertices p) NULLVEC)).

(** [i] is the first index whose cumulative distance is at least [d]. *)
Definition first_index_at_least (l : list R) (d : R) (i : nat) : Prop :=
  (i < List.length l)%nat /\ d <= nth i l 0
  /\ forall j : nat, (j < i)%nat -> nth j l 0 < d.

(** The stations that follow a vertex [prev] placed at station [s]. *)
Fixpoint stations (vs : list Vec3.t) (s : R) (prev : Vec3.t) : list R :=
  match vs with
  | [] => []
  | v :: vs' =>
      let s' := s + Vec3.magnitude (Vec3.sub v prev) in
      s' :: stations vs' s' v
  end.

(** The last valid index of a polyline, 0 when it has no vertex. *)
Definition last_valid_index (p : CP.t) : Z :=
  match CP._vertices p with
  | [] => 0%Z
  | _ :: _ => (CP.__len__ p - 1)%Z
  end.

(** The vertex [divide_by_length] appends when [force_last] asks for it. *)
Definition forced_last (p : CP.t) (force_last : bool) (vertex : Vec3.t)
  : list Vec3.t :=
  if force_last
     && negb (Vec3.isclose vertex (last (CP._vertices p) NULLVEC) Vec3.REL_TOL)
  then [last (CP._vertices p) NULLVEC]
  else [].

(** What a constructed [ApproxParamT] holds: a well-formed polyline of
    [n + 1] samples, the bound [max_t] and the step [max_t / n]. *)
Definition approximates (a : AP.t) (max_t : R) (n : nat) : Prop :=
  distances_invariant (AP._polyline a)
  /\ List.length (CP._vertices (AP._polyline a)) = S n
  /\ (0 < n)%nat
  /\ AP._max_t a = max_t
  /\ AP._step a = max_t / INR n.

(** The parameter [param_t] computes inside the bracket that ends at the
    index [r], before it is clamped to [max_t]. *)
Definition refined (distances : list R) (t_step distance : R) (r : nat) : R :=
  let station := nth r distances 0 in
  let d0 := station - nth (r - 1) distances 0 in
  if Rgt_dec d0 1e-12
  then t_step * INR r - t_step * (station - distance) / d0
  else t_step * INR r.

(** The sum of the lengths of the segments of a path that starts at
    [prev] and goes through [vs]. *)
Fixpoint segment_sum (prev : Vec3.t) (vs : list Vec3.t) : R :=
  match vs with
  | [] => 0
  | v :: vs' => Vec3.magnitude (Vec3.sub v prev) + segment_sum v vs'
  end.

(** The sum of the lengths of the segments between consecutive vertices. *)
Definition path_length (vs : list Vec3.t) : R :=
  match vs with
  | [] => 0
  | v :: vs' => segment_sum v vs'
  end.

(** The slices [[:]] and [[::-1]]. *)
Definition full_slice : slice := mkslice None None None.
Definition reversed_slice : slice := mkslice None None (Some (-1)%Z).

(** ** Sample inputs *)

(** A 2D point [(x, y)] as [Vec3.list] reads it. *)
Definition xy (a b : R) : Vec3.t := Vec3.mk a b 0.

(** The L-shape of length 7. *)
Definition lshape : list Vec3.t := [xy 0 0; xy 3 0; xy 3 4].

(** A path with a repeated middle vertex. *)
Definition duplicate_middle : list Vec3.t := [xy 0 0; xy 1 0; xy 1 0; xy 2 0].

(** Two coincident vertices: a polyline of length 0. *)
Definition coincident_pair : list Vec3.t := [xy 0 0; xy 0 0].

(** A single segment. *)
Definition unit_segment : list Vec3.t := [xy 0 0; xy 1 0].

(** A straight line through the origin, as a curve: [point(t) = t * dir]. *)
Record Ray : Type := mkRay { dir : Vec3.t }.

#[export] Instance Ray_point : SupportsPointMethod Ray :=
  {| point := fun c t => Vec3.mul (dir c) t |}.

(** ** The binary64 reading of polyline.py

    The same source with Python's floats as they are: IEEE 754 binary64
    numbers, every operation rounded to the nearest number (ties to even),
    with signed zeros, infinities and NaN.  A comparison with NaN is false.
    Each definition is the one of the same name above with the operations on
    real numbers replaced by the operations on floats. *)

Module Binary64.

Import PrimFloat.
Local Open Scope float_scope.

(** [float(n)] for an int [n], as Python converts an int operand of a float
    operation: the nearest float, ties to even; OverflowError from
    2^1024 - 2^970 on, where the nearest float would be infinite. *)
Definition of_Z (n : Z) : float :=
  FloatOps.SF2Prim
    (SpecFloat.binary_normalize FloatOps.prec FloatOps.emax n 0 false).

Definition float_of_int (n : Z) : result float :=
  if (Z.abs n <? 2 ^ 1024 - 2 ^ 970)%Z then Ok (of_Z n)
  else Raise OverflowError.

(** [x / y] on floats: a zero divisor of either sign raises. *)
Definition truediv (x y : float) : result float :=
  if y =? 0 then Raise ZeroDivisionError else Ok (x / y).

(** [int(x)] on a float: truncation towards zero; NaN and the infinities
    raise. *)
Definition int (x : float) : result Z :=
  match FloatOps.Prim2SF x with
  | SpecFloat.S754_nan =>
      Raise (ValueError "cannot convert float NaN to integer")
  | SpecFloat.S754_infinity _ => Raise OverflowError
  | SpecFloat.S754_zero _ => Ok 0%Z
  | SpecFloat.S754_finite s m e =>
      let a := match e with
               | Zneg k => (Zpos m / 2 ^ Zpos k)%Z
               | _ => (Zpos m * 2 ^ e)%Z
               end in
      Ok (if s then (- a)%Z else a)
  end.

(** [min(a, b)]: the second argument only when it is smaller. *)
Definition min (a b : float) : float := if b <? a then b else a.

(** [bisect.bisect_left(a, x)]: the loop [while lo < hi]; [hi - lo] shrinks
    at every iteration, so [len(a)] iterations are never used up. *)
Fixpoint bisect_loop (fuel : nat) (a : list float) (x : float) (lo hi : nat)
  : nat :=
  match fuel with
  | O => lo
  | S fuel' =>
      if (lo <? hi)%nat then
        let mid := ((lo + hi) / 2)%nat in
        if nth mid a 0 <? x then bisect_loop fuel' a x (S mid) hi
        else bisect_loop fuel' a x lo mid
      else lo
  end.

Definition bisect_left (a : list float) (x : float) : nat :=
  bisect_loop (List.length a) a x 0 (List.length a).

Module Vec3.

(** Modelled from the spec: the class [ezdxf.math.Vec3], whose source is
    outside polyline.py, with three float coordinates; the comparison is
    [math.isclose], applied to each coordinate. *)
Record t : Type := mk { x : float; y : float; z : float }.

Definition sub (a b : t) : t := mk (x a - x b) (y a - y b) (z a - z b).
Definition add (a b : t) : t := mk (x a + x b) (y a + y b) (z a + z b).
Definition mul (a : t) (k : float) : t := mk (x a * k) (y a * k) (z a * k).

Definition magnitude (a : t) : float :=
  sqrt (x a * x a + y a * y a + z a * z a).

(** [self.lerp(other, factor)] *)
Definition lerp (self other : t) (factor : float) : t :=
  add self (mul (sub other self) factor).

Definition REL_TOL : float := 1e-9.
Definition ABS_TOL : float := 1e-12.

(** [math.isclose(a, b, rel_tol=rel_tol, abs_tol=abs_tol)] *)
Definition float_isclose (a b rel_tol abs_tol : float) : bool :=
  if a =? b then true
  else if is_infinity a || is_infinity b then false
  else
    let diff := abs (b - a) in
    (diff <=? abs (rel_tol * b)) || (diff <=? abs (rel_tol * a))
    || (diff <=? abs_tol).

(** [self.isclose(other, rel_tol=rel_tol)] *)
Definition isclose (self other : t) (rel_tol : float) : bool :=
  float_isclose (x self) (x other) rel_tol ABS_TOL
  && float_isclose (y self) (y other) rel_tol ABS_TOL
  && float_isclose (z self) (z other) rel_tol ABS_TOL.

End Vec3.

(** [NULLVEC] and [Vec3()] *)
Definition NULLVEC : Vec3.t := Vec3.mk 0 0 0.

(** Modelled from the spec: the function [ezdxf.math.linspace], whose source
    is outside polyline.py: [num] evenly spaced values between two bounds,
    both included. *)
Definition linspace (start stop : float) (num : Z) : list float :=
  match Z.to_nat num with
  | O => []
  | S O => [start]
  | S n =>
      let delta := (stop - start) / of_Z (Z.of_nat n) in
      map (fun i => start + of_Z (Z.of_nat i) * delta) (seq 0 (S n))
  end.

Module polyline.

Definition REL_TOL : float := 1e-9.

(** [_distances(vertices)]: [current_station += distant_vec.magnitude] is a
    float addition. *)
Definition _distances_step (st : float * list float * Vec3.t)
  (vertex : Vec3.t) : float * list float * Vec3.t :=
  let '(current_station, distances, prev_vertex) := st in
  match distances with
  | _ :: _ =>
      let distant_vec := Vec3.sub vertex prev_vertex in
      let current_station := current_station + Vec3.magnitude distant_vec in
      (current_station, distances ++ [current_station], vertex)
  | [] => (current_station, distances ++ [current_station], vertex)
  end.

Definition _distances (vertices : list Vec3.t) : list float :=
  let '(_, distances, _) :=
    fold_left _distances_step vertices (0, [], NULLVEC) in
  distances.

Module ConstructionPolyline.

Record t : Type := mk {
  _rel_tol : float;
  _vertices : list Vec3.t;
  _distances : list float
}.

(** [ConstructionPolyline(vertices, close, rel_tol)] *)
Definition __init__ (vertices : list Vec3.t) (close : bool) (rel_tol : float)
  : t :=
  let v3list := vertices in
  let v3list :=
    if close && (2 <? len v3list)%Z then
      if negb (Vec3.isclose (nth 0 v3list NULLVEC) (last v3list NULLVEC) rel_tol)
      then v3list ++ [nth 0 v3list NULLVEC]
      else v3list
    else v3list in
  mk rel_tol v3list (polyline._distances v3list).

(** [len(self)] *)
Definition __len__ (self : t) : Z := len (_vertices self).

Definition length (self : t) : float :=
  match _distances self with
  | _ :: _ => last (_distances self) 0
  | [] => 0
  end.

Definition data (self : t) (index : Z) : result (float * float * Vec3.t) :=
  let vertices := _vertices self in
  match vertices with
  | [] => Raise (ValueError "empty polyline")
  | _ :: _ =>
      let distances := _distances self in
      if (index =? 0)%Z then
        v <- getitem vertices 0 ;; Ok (0, 0, v)
      else
        prev_distance <- getitem distances (index - 1) ;;
        current_distance <- getitem distances index ;;
        vertex <- getitem vertices index ;;
        Ok (current_distance, current_distance - prev_distance, vertex)
  end.

Definition _index_at (self : t) (distance : float) : Z :=
  Z.of_nat (bisect_left (_distances self) distance).

Definition index_at (self : t) (distance : float) : Z :=
  if distance <=? 0 then 0%Z
  else if length self <=? distance then Z.max 0 (__len__ self - 1)
  else _index_at self distance.

(** The loop [while index0 > 0 and distance0 == distance1] of [_vertex_at]. *)
Fixpoint skip_coincident (distances : list float) (index0 : nat)
  (distance0 distance1 : float) : result (Z * float) :=
  match index0 with
  | S index0' =>
      if distance0 =? distance1 then
        distance0' <- getitem distances (Z.of_nat index0') ;;
        skip_coincident distances index0' distance0' distance1
      else Ok (Z.of_nat index0, distance0)
  | O => Ok (0%Z, distance0)
  end.

Definition _vertex_at (self : t) (distance : float) : result Vec3.t :=
  let vertices := _vertices self in
  let distances := _distances self in
  let index1 := _index_at self distance in
  if (index1 =? 0)%Z then getitem vertices 0
  else
    let index0 := (index1 - 1)%Z in
    distance1 <- getitem distances index1 ;;
    distance0 <- getitem distances index0 ;;
    '(index0, distance0) <-
      skip_coincident distances (Z.to_nat index0) distance0 distance1 ;;
    if distance0 =? distance1 then
      Raise (ArithmeticError "internal interpolation error")
    else
      factor <- truediv (distance - distance0) (distance1 - distance0) ;;
      v0 <- getitem vertices index0 ;;
      v1 <- getitem vertices index1 ;;
      Ok (Vec3.lerp v0 v1 factor).

Definition vertex_at (self : t) (distance : float) : result Vec3.t :=
  if distance <? 0 then Raise (ValueError "distance out of range")
  else if length self <? distance
  then Raise (ValueError "distance out of range")
  else if (__len__ self <? 2)%Z
  then Raise (ValueError "not enough vertices for interpolation")
  else _vertex_at self distance.

(** The loop [while distance <= total_length] of [divide_by_length], with
    [distance += length] a float addition.  [None] when [fuel] iterations
    do not reach the end of the loop. *)
Fixpoint divide_by_length_loop (fuel : nat) (self : t)
  (total_length length distance : float) (vertex : Vec3.t)
  : option (list Vec3.t * result Vec3.t) :=
  match fuel with
  | O => None
  | S fuel' =>
      if distance <=? total_length then
        match _vertex_at self distance with
        | Raise e => Some ([], Raise e)
        | Ok vertex' =>
            match divide_by_length_loop fuel' self total_length length
                    (distance + length) vertex' with
            | Some (ys, r) => Some (vertex' :: ys, r)
            | None => None
            end
        end
      else Some ([], Ok vertex)
  end.

Definition divide_by_length (fuel : nat) (self : t) (length : float)
  (force_last : bool) : option (generated Vec3.t) :=
  if length <=? 0 then Some ([], Some (ValueError "invalid length"))
  else if (__len__ self <? 2)%Z
  then Some ([], Some (ValueError "not enough vertices for interpolation"))
  else
    let total_length := ConstructionPolyline.length self in
    match divide_by_length_loop fuel self total_length length 0 NULLVEC with
    | None => None
    | Some (ys, Raise e) => Some (ys, Some e)
    | Some (ys, Ok vertex) =>
        if force_last
           && negb (Vec3.isclose vertex (last (_vertices self) NULLVEC)
                      Vec3.REL_TOL)
        then Some (ys ++ [last (_vertices self) NULLVEC], None)
        else Some (ys, None)
    end.

End ConstructionPolyline.

(** The protocol [SupportsPointMethod], over float parameters. *)
Class SupportsPointMethod (C : Type) : Type := {
  point : C -> float -> Vec3.t
}.

Module ApproxParamT.

Record t : Type := mk {
  _polyline : ConstructionPolyline.t;
  _max_t : float;
  _step : float
}.

(** [ApproxParamT(curve, max_t=max_t, segments=segments)]: the int
    [segments] is converted for the division [max_t / segments]. *)
Definition __init__ {C : Type} `{SupportsPointMethod C}
  (curve : C) (max_t : float) (segments : Z) : result t :=
  if (0 <? segments)%Z then
    let poly :=
      ConstructionPolyline.__init__
        (map (point curve) (linspace 0 max_t (segments + 1))) false REL_TOL in
    n <- float_of_int segments ;;
    step <- truediv max_t n ;;
    Ok (mk poly max_t step)
  else Raise AssertionError.

Definition max_t (self : t) : float := _max_t self.

Definition polyline (self : t) : ConstructionPolyline.t := _polyline self.

(** [param_t(distance)]: the int [i] is converted for [t_step * i]. *)
Definition param_t (self : t) (distance : float) : result float :=
  let poly := _polyline self in
  if ConstructionPolyline.length poly <=? distance then Ok (_max_t self)
  else
    let t_step := _step self in
    let i := ConstructionPolyline.index_at poly distance in
    '(station, d0, _) <- ConstructionPolyline.data poly i ;;
    n <- float_of_int i ;;
    let t := t_step * n in
    t <- (if 1e-12 <? d0 then
            q <- truediv (t_step * (station - distance)) d0 ;; Ok (t - q)
          else Ok t) ;;
    Ok (min (_max_t self) t).

(** [distance(t)]: the int [index] is converted for [step * index]. *)
Definition distance (self : t) (t : float) : result float :=
  if t <=? 0 then Ok 0
  else
    let poly := _polyline self in
    if _max_t self <=? t then Ok (ConstructionPolyline.length poly)
    else
      let step := _step self in
      q <- truediv t step ;;
      i <- int q ;;
      let index := (i + 1)%Z in
      '(station, d0, _) <- ConstructionPolyline.data poly index ;;
      n <- float_of_int index ;;
      r <- truediv (d0 * (step * n - t)) step ;;
      Ok (station - r).

End ApproxParamT.

End polyline.

(** The distances [divide_by_length] visits from the distance [d] on: one
    float addition of [length] at each step. *)
Fixpoint stepped (length d : float) (k : nat) : float :=
  match k with
  | O => d
  | S k' => stepped length (d + length) k'
  end.

(** The vertex [divide_by_length] appends when [force_last] asks for it. *)
Definition forced_last (p : polyline.ConstructionPolyline.t)
  (force_last : bool) (vertex : Vec3.t) : list Vec3.t :=
  if force_last
     && negb (Vec3.isclose vertex
                (last (polyline.ConstructionPolyline._vertices p) NULLVEC)
                Vec3.REL_TOL)
  then [last (polyline.ConstructionPolyline._vertices p) NULLVEC]
  else [].

(** The floor of a float, in the words of the specification: the greatest
    integer that is not above it. *)
Definition floor (x : float) : result Z :=
  match FloatOps.Prim2SF x with
  | SpecFloat.S754_nan =>
      Raise (ValueError "cannot convert float NaN to integer")
  | SpecFloat.S754_infinity _ => Raise OverflowError
  | SpecFloat.S754_zero _ => Ok 0%Z
  | SpecFloat.S754_finite s m e =>
      Ok (match e with
          | Zneg k =>
              if s then (- ((Zpos m + 2 ^ Zpos k - 1) / 2 ^ Zpos k))%Z
              else (Zpos m / 2 ^ Zpos k)%Z
          | _ => if s then (- (Zpos m * 2 ^ e))%Z else (Zpos m * 2 ^ e)%Z
          end)
  end.

(** A float whose sign bit is clear, or NaN; a float above zero, or NaN. *)
Definition sign_clear (s : SpecFloat.spec_float) : Prop :=
  match s with
  | SpecFloat.S754_zero true | SpecFloat.S754_infinity true
  | SpecFloat.S754_finite true _ _ => False
  | _ => True
  end.

Definition above_zero (s : SpecFloat.spec_float) : Prop :=
  match s with
  | SpecFloat.S754_nan | SpecFloat.S754_infinity false
  | SpecFloat.S754_finite false _ _ => True
  | _ => False
  end.

(** Sample inputs in binary64. *)
Definition xy (a b : float) : Vec3.t := Vec3.mk a b 0.

(** The L-shape of length 7. *)
Definition lshape : list Vec3.t := [xy 0 0; xy 3 0; xy 3 4].

(** A path of length 7 that folds back on itself: its point at the
    distance 5 is its last vertex. *)
Definition folded : list Vec3.t := [xy 0 0; xy 6 0; xy 5 0].

(** A straight line through the origin, as a curve: [point(t) = t * dir]. *)
Record Ray : Type := mkRay { dir : Vec3.t }.

#[global] Instance Ray_point : polyline.SupportsPointMethod Ray :=
  {| polyline.point := fun c t => Vec3.mul (dir c) t |}.

End Binary64.

Module B := Binary64.
Module V64 := Binary64.Vec3.
Module CP64 := Binary64.polyline.ConstructionPolyline.
Module AP64 := Binary64.polyline.ApproxParamT.

(** ** Python runtime: basic facts *)

Section PyFacts.

Context {A : Type}.
Implicit Types (l : list A) (i : nat).

Lemma getitem_of_nat l i (d : A) :
  (i < List.length l)%nat -> getitem l (Z.of_nat i) = Ok (nth i l d).
Proof.
  intros Hi. unfold getitem.
  destruct (Z.ltb_spec (Z.of_nat i) 0) as [Hneg | _]; [lia |].
  destruct (Z.ltb_spec (Z.of_nat i) 0) as [Hneg | _]; [lia |].
  rewrite Nat2Z.id.
  destruct (nth_error l i) as [a |] eqn:E.
  - rewrite (nth_error_nth _ _ d E). reflexivity.
  - apply nth_error_None in E. lia.
Qed.

Lemma getitem_out_of_range l (k : Z) :
  (len l <= k)%Z -> getitem l k = Raise IndexError.
Proof.
  intros Hk. unfold getitem, len in *.
  destruct (Z.ltb_spec k 0) as [Hneg | Hpos]; [lia |].
  destruct (Z.ltb_spec k 0) as [Hneg | _]; [lia |].
  destruct (nth_error l (Z.to_nat k)) eqn:E; [| reflexivity].
  assert (Z.to_nat k < List.length l)%nat
    by (apply nth_error_Some; congruence).
  lia.
Qed.

Lemma last_nth l (d : A) : last l d = nth (List.length l - 1) l d.
Proof.
  induction l as [| a [| b l'] IH]; try reflexivity.
  change (last (a :: b :: l') d) with (last (b :: l') d). rewrite IH.
  simpl. rewrite Nat.sub_0_r. reflexivity.
Qed.

End PyFacts.

Lemma truediv_ok (x y : R) : y <> 0 -> truediv x y = Ok (x / y).
Proof.
  intros Hy. unfold truediv. destruct (Req_dec_T y 0); [contradiction | reflexivity].
Qed.

(** ** Binary search *)

Section Bisect.

Variable a : list R.
Variable x : R.
Hypothesis a_sorted : nondecreasing a.

Lemma bisect_loop_bounds (lo hi : nat) :
  (lo <= hi <= List.length a)%nat ->
  (forall i, (i < lo)%nat -> nth i a 0 < x) ->
  (forall i, (hi <= i < List.length a)%nat -> x <= nth i a 0) ->
  (lo <= bisect_loop a x lo hi <= hi)%nat
  /\ (forall i, (i < bisect_loop a x lo hi)%nat -> nth i a 0 < x)
  /\ (forall i, (bisect_loop a x lo hi <= i < List.length a)%nat ->
        x <= nth i a 0).
Proof.
  funelim (bisect_loop a x lo hi); intros Hb Hlow Hhigh.
  - (* the loop is left *)
    assert (lo = hi) by lia. subst hi.
    repeat split; auto; lia.
  - (* a[mid] < x: lo = mid + 1 *)
    pose proof (Nat.div_mod_eq (lo + hi) 2) as Hd.
    pose proof (Nat.mod_upper_bound (lo + hi) 2) as Hm.
    destruct H as (Hr & Hl & Hh); auto.
    + lia.
    + intros i Hi.
      apply Rle_lt_trans with (nth ((lo + hi) / 2) a 0); [| assumption].
      apply a_sorted. lia.
    + repeat split; auto; lia.
  - (* x <= a[mid]: hi = mid *)
    pose proof (Nat.div_mod_eq (lo + hi) 2) as Hd.
    pose proof (Nat.mod_upper_bound (lo + hi) 2) as Hm.
    destruct H as (Hr & Hl & Hh); auto.
    + lia.
    + intros i Hi.
      apply Rle_trans with (nth ((lo + hi) / 2) a 0); [lra |].
      apply a_sorted. lia.
    + repeat split; auto; lia.
Qed.

Lemma bisect_left_lower_bound :
  (bisect_left a x <= List.length a)%nat
  /\ (forall i, (i < bisect_left a x)%nat -> nth i a 0 < x)
  /\ (forall i, (bisect_left a x <= i < List.length a)%nat -> x <= nth i a 0).
Proof.
  unfold bisect_left.
  destruct (bisect_loop_bounds 0 (List.length a)) as (Hr & Hl & Hh);
    try (intros; lia).
  repeat split; auto; lia.
Qed.

End Bisect.

(** ** The distance array *)

Lemma magnitude_nonneg (v : Vec3.t) : 0 <= Vec3.magnitude v.
Proof. apply sqrt_pos. Qed.

Lemma _distances_fold (vs : list Vec3.t) (s : R) (ds : list R) (prev : Vec3.t) :
  ds <> [] ->
  exists s' prev',
    fold_left _distances_step vs (s, ds, prev) = (s', ds ++ stations vs s prev, prev').
Proof.
  revert s ds prev.
  induction vs as [| v vs IH]; intros s ds prev Hds; simpl.
  - exists s, prev. rewrite app_nil_r. reflexivity.
  - destruct ds as [| d0 ds0]; [contradiction |].
    destruct (IH (s + Vec3.magnitude (Vec3.sub v prev))
                 ((d0 :: ds0) ++ [s + Vec3.magnitude (Vec3.sub v prev)]) v)
      as (s' & prev' & E).
    { destruct ds0; discriminate. }
    exists s', prev'. rewrite E. rewrite <- app_assoc. reflexivity.
Qed.

Lemma _distances_cons (v : Vec3.t) (vs : list Vec3.t) :
  _distances (v :: vs) = 0 :: stations vs 0 v.
Proof.
  unfold _distances. simpl.
  destruct (_distances_fold vs 0 [0] v) as (s' & prev' & E); [discriminate |].
  rewrite E. reflexivity.
Qed.

Lemma stations_length (vs : list Vec3.t) (s : R) (prev : Vec3.t) :
  List.length (stations vs s prev) = List.length vs.
Proof.
  revert s prev. induction vs as [| v vs IH]; intros; simpl; [| rewrite IH]; reflexivity.
Qed.

Lemma _distances_length (vs : list Vec3.t) :
  List.length (_distances vs) = List.length vs.
Proof.
  destruct vs as [| v vs]; [reflexivity |].
  rewrite _distances_cons. simpl. rewrite stations_length. reflexivity.
Qed.

(** Each station adds the length of the segment from the previous vertex. *)
Lemma stations_nth (vs : list Vec3.t) (s : R) (prev : Vec3.t) (i : nat) :
  (i < List.length vs)%nat ->
  nth i (s :: stations vs s prev) 0 + Vec3.magnitude
      (Vec3.sub (nth i vs NULLVEC) (nth i (prev :: vs) NULLVEC))
  = nth i (stations vs s prev) 0.
Proof.
  revert s prev i. induction vs as [| v vs IH]; intros s prev i Hi; simpl in Hi; [lia |].
  destruct i as [| i]; [reflexivity |].
  change (nth (S i) (s :: stations (v :: vs) s prev) 0)
    with (nth i (stations (v :: vs) s prev) 0).
  simpl stations.
  change (nth (S i) (v :: vs) NULLVEC) with (nth i vs NULLVEC).
  change (nth (S i) (prev :: v :: vs) NULLVEC) with (nth i (v :: vs) NULLVEC).
  change (nth (S i) (?a :: ?l) 0) with (nth i l 0).
  apply IH. lia.
Qed.

Lemma _distances_step_eq (vs : list Vec3.t) (i : nat) :
  (0 < i < List.length vs)%nat ->
  nth i (_distances vs) 0
  = nth (i - 1) (_distances vs) 0
    + Vec3.magnitude (Vec3.sub (nth i vs NULLVEC) (nth (i - 1) vs NULLVEC)).
Proof.
  intros Hi. destruct vs as [| v vs]; [simpl in Hi; lia |].
  rewrite _distances_cons. destruct i as [| i]; [lia |].
  simpl in Hi. replace (S i - 1)%nat with i by lia.
  change (nth (S i) (0 :: stations vs 0 v) 0) with (nth i (stations vs 0 v) 0).
  change (nth (S i) (v :: vs) NULLVEC) with (nth i vs NULLVEC).
  symmetry. apply stations_nth. lia.
Qed.

(** A list whose consecutive elements do not decrease is non-decreasing. *)
Lemma nondecreasing_of_steps (l : list R) :
  (forall i, (0 < i < List.length l)%nat -> nth (i - 1) l 0 <= nth i l 0) ->
  nondecreasing l.
Proof.
  intros Hstep i j [Hij Hj].
  induction j as [| j IH]; [replace i with 0%nat by lia; lra |].
  destruct (Nat.eq_dec i (S j)) as [-> | Hne]; [lra |].
  apply Rle_trans with (nth j l 0); [apply IH; lia |].
  specialize (Hstep (S j)). replace (S j - 1)%nat with j in Hstep by lia.
  apply Hstep. lia.
Qed.

Lemma invariant_nondecreasing (p : CP.t) :
  distances_invariant p -> nondecreasing (CP._distances p).
Proof.
  intros (Hlen & _ & Hstep). apply nondecreasing_of_steps.
  intros i Hi. rewrite (Hstep i) by lia.
  pose proof (magnitude_nonneg
    (Vec3.sub (nth i (CP._vertices p) NULLVEC) (nth (i - 1) (CP._vertices p) NULLVEC))).
  lra.
Qed.

Lemma length_last (p : CP.t) :
  CP.length p = nth (List.length (CP._distances p) - 1) (CP._distances p) 0.
Proof.
  unfold CP.length. destruct (CP._distances p) as [| d ds] eqn:E; [reflexivity |].
  apply last_nth.
Qed.

Lemma invariant_first_zero (p : CP.t) :
  distances_invariant p -> nth 0 (CP._distances p) 0 = 0.
Proof.
  intros (Hlen & H0 & _).
  destruct (CP._vertices p) as [| v vs] eqn:E.
  - destruct (CP._distances p); [reflexivity | discriminate].
  - apply H0. discriminate.
Qed.

Lemma invariant_length_nonneg (p : CP.t) :
  distances_invariant p -> 0 <= CP.length p.
Proof.
  intros Hinv. rewrite length_last.
  pose proof (invariant_first_zero p Hinv) as H0.
  pose proof (invariant_nondecreasing p Hinv 0%nat
                (List.length (CP._distances p) - 1)%nat) as Hle.
  destruct (CP._distances p) as [| d ds] eqn:E; [simpl; lra |].
  rewrite H0 in Hle. apply Hle. simpl. lia.
Qed.

Lemma distances_invariant_of_vertices (tol : R) (vs : list Vec3.t) :
  distances_invariant (CP.mk tol vs (_distances vs)).
Proof.
  unfold distances_invariant. simpl. repeat split.
  - apply _distances_length.
  - intros Hne. destruct vs as [| v vs]; [contradiction |].
    rewrite _distances_cons. reflexivity.
  - intros i Hi. apply _distances_step_eq. exact Hi.
Qed.

Lemma init_invariant (vs : list Vec3.t) (close : bool) (tol : R) :
  distances_invariant (CP.__init__ vs close tol).
Proof. unfold CP.__init__. apply distances_invariant_of_vertices. Qed.

(** The lower bound is unique: an index with the lower-bound property is the
    one the search returns. *)
Lemma bisect_left_unique (a : list R) (x : R) (r : nat) :
  nondecreasing a ->
  (r <= List.length a)%nat ->
  (forall i, (i < r)%nat -> nth i a 0 < x) ->
  (forall i, (r <= i < List.length a)%nat -> x <= nth i a 0) ->
  bisect_left a x = r.
Proof.
  intros Hs Hr Hlow Hhigh.
  destruct (bisect_left_lower_bound a x Hs) as (Hb & Hl & Hh).
  destruct (Nat.lt_trichotomy (bisect_left a x) r) as [Hlt | [Heq | Hgt]].
  - specialize (Hlow _ Hlt). specialize (Hh (bisect_left a x)).
    assert (x <= nth (bisect_left a x) a 0) by (apply Hh; lia). lra.
  - exact Heq.
  - specialize (Hl _ Hgt). specialize (Hhigh r).
    assert (x <= nth r a 0) by (apply Hhigh; lia). lra.
Qed.

(** Inside the polyline the search returns the first index whose cumulative
    distance reaches the queried one. *)
Lemma _index_at_first (p : CP.t) (d : R) :
  distances_invariant p -> d <= CP.length p -> CP._distances p <> [] ->
  first_index_at_least (CP._distances p) d (bisect_left (CP._distances p) d).
Proof.
  intros Hinv Hd Hne.
  pose proof (invariant_nondecreasing p Hinv) as Hs.
  destruct (bisect_left_lower_bound (CP._distances p) d Hs) as (Hb & Hl & Hh).
  rewrite length_last in Hd.
  assert (Hlen : (0 < List.length (CP._distances p))%nat).
  { destruct (CP._distances p); [contradiction | simpl; lia]. }
  assert (Hlt : (bisect_left (CP._distances p) d < List.length (CP._distances p))%nat).
  { destruct (Nat.eq_dec (bisect_left (CP._distances p) d)
                         (List.length (CP._distances p))) as [E | NE]; [| lia].
    specialize (Hl (List.length (CP._distances p) - 1)%nat). 
    assert (nth (List.length (CP._distances p) - 1) (CP._distances p) 0 < d)
      by (apply Hl; lia).
    lra. }
  repeat split; auto.
Qed.

(** ** Claims about the polyline *)

(** C4. Every constructed polyline, with or without [close], and every
    polyline obtained from one by slicing, satisfies the distances
    invariant: one distance per vertex, the first distance 0, each further
    distance the previous one plus the length of the segment; its
    distances are therefore non-decreasing and its length is not
    negative. *)
Theorem C4_distances_invariant :
  (forall (vertices : list Vec3.t) (close : bool) (rel_tol : R),
      let p := CP.__init__ vertices close rel_tol in
      distances_invariant p
      /\ nondecreasing (CP._distances p) /\ 0 <= CP.length p)
  /\ (forall (p q : CP.t) (s : slice),
         CP.__getitem__ p (CP.Slice s) = Ok (inr q) ->
         distances_invariant q
         /\ nondecreasing (CP._distances q) /\ 0 <= CP.length q).
Proof.
  assert (Hinit : forall vs close tol,
             let p := CP.__init__ vs close tol in
             distances_invariant p
             /\ nondecreasing (CP._distances p) /\ 0 <= CP.length p).
  { intros vs close tol p. pose proof (init_invariant vs close tol) as Hinv.
    fold p in Hinv. repeat split; try apply Hinv.
    - apply invariant_nondecreasing; exact Hinv.
    - apply invariant_length_nonneg; exact Hinv. }
  split; [exact Hinit |].
  intros p q s Hget. unfold CP.__getitem__ in Hget.
  destruct (getslice (CP._vertices p) s) as [vs | e]; simpl in Hget;
    [| discriminate].
  injection Hget as <-. apply Hinit.
Qed.

(** ** Evaluation on sample inputs *)

Lemma magnitude_of_square (v : Vec3.t) (m : R) :
  0 <= m ->
  m * m = Vec3.x v * Vec3.x v + Vec3.y v * Vec3.y v + Vec3.z v * Vec3.z v ->
  Vec3.magnitude v = m.
Proof.
  intros Hm Hsq. unfold Vec3.magnitude. apply sqrt_lem_1; try assumption.
  rewrite <- Hsq. nra.
Qed.

Ltac magnitude_is m :=
  apply (magnitude_of_square _ m); [lra | simpl; lra].

Lemma lshape_distances : _distances lshape = [0; 3; 7].
Proof.
  unfold lshape. rewrite _distances_cons. simpl stations.
  replace (Vec3.magnitude (Vec3.sub (xy 3 0) (xy 0 0))) with 3
    by (symmetry; magnitude_is 3).
  replace (Vec3.magnitude (Vec3.sub (xy 3 4) (xy 3 0))) with 4
    by (symmetry; magnitude_is 4).
  repeat f_equal; lra.
Qed.

Lemma duplicate_middle_distances : _distances duplicate_middle = [0; 1; 1; 2].
Proof.
  unfold duplicate_middle. rewrite _distances_cons. simpl stations.
  replace (Vec3.magnitude (Vec3.sub (xy 1 0) (xy 0 0))) with 1
    by (symmetry; magnitude_is 1).
  replace (Vec3.magnitude (Vec3.sub (xy 1 0) (xy 1 0))) with 0
    by (symmetry; magnitude_is 0).
  replace (Vec3.magnitude (Vec3.sub (xy 2 0) (xy 1 0))) with 1
    by (symmetry; magnitude_is 1).
  repeat f_equal; lra.
Qed.

Lemma coincident_pair_distances : _distances coincident_pair = [0; 0].
Proof.
  unfold coincident_pair. rewrite _distances_cons. simpl stations.
  replace (Vec3.magnitude (Vec3.sub (xy 0 0) (xy 0 0))) with 0
    by (symmetry; magnitude_is 0).
  repeat f_equal; lra.
Qed.

Lemma unit_segment_distances : _distances unit_segment = [0; 1].
Proof.
  unfold unit_segment. rewrite _distances_cons. simpl stations.
  replace (Vec3.magnitude (Vec3.sub (xy 1 0) (xy 0 0))) with 1
    by (symmetry; magnitude_is 1).
  repeat f_equal; lra.
Qed.

Lemma init_open (vs : list Vec3.t) (tol : R) :
  CP.__init__ vs false tol = CP.mk tol vs (_distances vs).
Proof. reflexivity. Qed.

(** Settles the float comparisons of a goal by linear arithmetic. *)
Ltac decide_floats :=
  repeat match goal with
    | |- context [Rle_dec ?a ?b] => destruct (Rle_dec a b); try lra
    | |- context [Rlt_dec ?a ?b] => destruct (Rlt_dec a b); try lra
    | |- context [Rge_dec ?a ?b] => destruct (Rge_dec a b); try lra
    | |- context [Rgt_dec ?a ?b] => destruct (Rgt_dec a b); try lra
    | |- context [Req_dec_T ?a ?b] => destruct (Req_dec_T a b); try lra
    end.

(** Bounded quantification over the indices of a short list. *)
Ltac each_index i H :=
  simpl in H;
  repeat (destruct i as [| i]; [simpl; try lra; try lia | try lia]).

Lemma max_last_index (p : CP.t) :
  Z.max 0 (CP.__len__ p - 1) = last_valid_index p.
Proof.
  unfold last_valid_index, CP.__len__, len.
  destruct (CP._vertices p); simpl List.length; lia.
Qed.

Lemma C4_distances_invariant_witness :
  let q := CP.__init__ [xy 3 0; xy 3 4] false REL_TOL in
  distances_invariant q /\ nondecreasing (CP._distances q) /\ 0 <= CP.length q.
Proof.
  intros q.
  apply (proj2 C4_distances_invariant
           (CP.__init__ lshape false REL_TOL) q (mkslice (Some 1%Z) None None)).
  reflexivity.
Defined.

(** C1, as amended. On a polyline that satisfies the distances invariant,
    [index_at(distance)] returns 0 for any distance <= 0; for any distance
    that is positive and >= length it returns the last valid index (0 when
    the polyline is empty); for any distance strictly between 0 and length
    it returns the first index whose cumulative distance is >= distance. *)
Theorem C1_index_at (p : CP.t) (d : R) :
  distances_invariant p ->
  (d <= 0 -> CP.index_at p d = 0%Z)
  /\ (0 < d -> CP.length p <= d -> CP.index_at p d = last_valid_index p)
  /\ (0 < d < CP.length p ->
      exists i : nat,
        CP.index_at p d = Z.of_nat i
        /\ first_index_at_least (CP._distances p) d i).
Proof.
  intros Hinv. unfold CP.index_at. repeat split.
  - intros Hd. decide_floats. reflexivity.
  - intros Hpos Hd. decide_floats. apply max_last_index.
  - intros [Hpos Hd]. decide_floats.
    exists (bisect_left (CP._distances p) d). split; [reflexivity |].
    apply _index_at_first; try assumption; try lra.
    intros E. unfold CP.length in Hd. rewrite E in Hd. lra.
Qed.

Lemma C1_index_at_witness :
  let p := CP.__init__ lshape false REL_TOL in
  exists i : nat,
    CP.index_at p 5 = Z.of_nat i
    /\ first_index_at_least (CP._distances p) 5 i.
Proof.
  intros p.
  apply (C1_index_at p 5 (init_invariant lshape false REL_TOL)).
  unfold p. rewrite init_open. unfold CP.length. simpl CP._distances.
  rewrite lshape_distances. simpl. lra.
Defined.

(** C1, as stated, fails where the two clamps overlap: on the polyline of
    two coincident vertices the distance 0 is >= length, yet [index_at(0)]
    is 0 and not the last valid index 1. *)
Lemma C1_index_at_counterexample :
  let p := CP.__init__ coincident_pair false REL_TOL in
  distances_invariant p
  /\ 0 >= CP.length p
  /\ last_valid_index p = 1%Z
  /\ CP.index_at p 0 = 0%Z
  /\ CP.index_at p 0 <> last_valid_index p.
Proof.
  intros p.
  assert (Hlen : CP.length p = 0).
  { unfold p. rewrite init_open. unfold CP.length. simpl CP._distances.
    rewrite coincident_pair_distances. reflexivity. }
  assert (Hidx : CP.index_at p 0 = 0%Z).
  { unfold CP.index_at. decide_floats. reflexivity. }
  assert (Hlast : last_valid_index p = 1%Z) by reflexivity.
  split; [apply init_invariant |].
  split; [lra |].
  split; [exact Hlast |].
  split; [exact Hidx |].
  rewrite Hidx, Hlast. discriminate.
Qed.

(** ** Interpolation *)

(** On a bracket that is not degenerate the backward walk does not move. *)
Lemma skip_coincident_distinct (distances : list R) (index0 : nat) (d0 d1 : R) :
  d0 <> d1 ->
  CP.skip_coincident distances index0 d0 d1 = Ok (Z.of_nat index0, d0).
Proof.
  intros Hne. destruct index0 as [| n]; simpl; [reflexivity |].
  destruct (Req_dec_T d0 d1); [contradiction | reflexivity].
Qed.

Lemma _vertex_at_first (p : CP.t) (d : R) :
  bisect_left (CP._distances p) d = 0%nat ->
  CP._vertex_at p d = getitem (CP._vertices p) 0.
Proof.
  intros E. unfold CP._vertex_at, CP._index_at. rewrite E. reflexivity.
Qed.

(** Past the last station the bracket lookup leaves the distance array. *)
Lemma _vertex_at_beyond (p : CP.t) (d : R) :
  bisect_left (CP._distances p) d = List.length (CP._distances p) ->
  CP._distances p <> [] ->
  CP._vertex_at p d = Raise IndexError.
Proof.
  intros E Hne. unfold CP._vertex_at, CP._index_at. rewrite E.
  destruct (Z.eqb_spec (Z.of_nat (List.length (CP._distances p))) 0) as [H0 | _].
  - destruct (CP._distances p); [contradiction | simpl in H0; lia].
  - rewrite getitem_out_of_range by (unfold len; lia). reflexivity.
Qed.

(** Inside the polyline the bracket found by the search is never degenerate,
    and the interpolation goes through. *)
Lemma _vertex_at_bracket (p : CP.t) (d : R) (r : nat) :
  distances_invariant p ->
  bisect_left (CP._distances p) d = r ->
  (0 < r < List.length (CP._distances p))%nat ->
  nth (r - 1) (CP._distances p) 0 < nth r (CP._distances p) 0
  /\ CP._vertex_at p d
     = Ok (Vec3.lerp (nth (r - 1) (CP._vertices p) NULLVEC)
                     (nth r (CP._vertices p) NULLVEC)
                     ((d - nth (r - 1) (CP._distances p) 0)
                      / (nth r (CP._distances p) 0
                         - nth (r - 1) (CP._distances p) 0))).
Proof.
  intros Hinv E Hr.
  pose proof (invariant_nondecreasing p Hinv) as Hs.
  destruct (bisect_left_lower_bound (CP._distances p) d Hs) as (Hb & Hl & Hh).
  rewrite E in Hl, Hh.
  assert (Hlo : nth (r - 1) (CP._distances p) 0 < d) by (apply Hl; lia).
  assert (Hhi : d <= nth r (CP._distances p) 0) by (apply Hh; lia).
  split; [lra |].
  destruct Hinv as (Hlen & _).
  unfold CP._vertex_at, CP._index_at. rewrite E.
  destruct (Z.eqb_spec (Z.of_nat r) 0) as [H0 | _]; [lia |].
  replace (Z.of_nat r - 1)%Z with (Z.of_nat (r - 1)) by lia.
  rewrite (getitem_of_nat _ r 0) by lia.
  rewrite (getitem_of_nat _ (r - 1) 0) by lia.
  simpl bind. rewrite Nat2Z.id.
  rewrite skip_coincident_distinct by lra.
  simpl bind.
  destruct (Req_dec_T (nth (r - 1) (CP._distances p) 0)
                      (nth r (CP._distances p) 0)); [lra |].
  rewrite truediv_ok by lra.
  simpl bind.
  rewrite (getitem_of_nat _ (r - 1) NULLVEC) by lia.
  rewrite (getitem_of_nat _ r NULLVEC) by lia.
  reflexivity.
Qed.

(** The three ways [_vertex_at] can end on a well-formed polyline. *)
Lemma _vertex_at_cases (p : CP.t) (d : R) :
  distances_invariant p ->
  (CP._vertices p = [] /\ CP._vertex_at p d = Raise IndexError)
  \/ (exists v, CP._vertex_at p d = Ok v)
  \/ (CP.length p < d /\ CP._vertex_at p d = Raise IndexError).
Proof.
  intros Hinv.
  pose proof (invariant_nondecreasing p Hinv) as Hs.
  destruct (bisect_left_lower_bound (CP._distances p) d Hs) as (Hb & Hl & Hh).
  pose proof Hinv as (Hlen & _).
  destruct (Nat.eq_dec (bisect_left (CP._distances p) d) 0) as [E0 | N0].
  - rewrite (_vertex_at_first p d E0).
    destruct (CP._vertices p) as [| v vs] eqn:EV.
    + left. split; reflexivity.
    + right. left. exists v. reflexivity.
  - destruct (Nat.eq_dec (bisect_left (CP._distances p) d)
                         (List.length (CP._distances p))) as [EL | NL].
    + right. right. split.
      * rewrite length_last. apply Hl. lia.
      * apply _vertex_at_beyond; [exact EL |].
        intros Hnil. rewrite Hnil in EL, N0. simpl in EL. contradiction.
    + right. left.
      destruct (_vertex_at_bracket p d (bisect_left (CP._distances p) d) Hinv eq_refl)
        as (_ & Hok); [lia |].
      eexists. exact Hok.
Qed.

Lemma _vertex_at_in_range (p : CP.t) (d : R) :
  distances_invariant p -> CP._vertices p <> [] -> d <= CP.length p ->
  exists v, CP._vertex_at p d = Ok v.
Proof.
  intros Hinv Hne Hd.
  destruct (_vertex_at_cases p d Hinv) as [[Hnil _] | [Hok | [Hlt _]]].
  - contradiction.
  - exact Hok.
  - lra.
Qed.

Lemma _vertex_at_not_arithmetic (p : CP.t) (d : R) (msg : string) :
  distances_invariant p -> CP._vertex_at p d <> Raise (ArithmeticError msg).
Proof.
  intros Hinv.
  destruct (_vertex_at_cases p d Hinv) as [[_ E] | [[v E] | [_ E]]];
    rewrite E; discriminate.
Qed.

Lemma sample_nondecreasing (vs : list Vec3.t) : nondecreasing (_distances vs).
Proof.
  apply (invariant_nondecreasing (CP.mk 0 vs (_distances vs))).
  apply distances_invariant_of_vertices.
Qed.

Lemma duplicate_middle_index : bisect_left (_distances duplicate_middle) 1.5 = 3%nat.
Proof.
  apply bisect_left_unique.
  - apply sample_nondecreasing.
  - rewrite duplicate_middle_distances. simpl. lia.
  - rewrite duplicate_middle_distances. intros i Hi. each_index i Hi.
  - rewrite duplicate_middle_distances. intros i Hi. each_index i Hi.
Qed.

(** C2. On the polyline (0,0), (1,0), (1,0), (2,0) the search for the
    distance 1.5 lands on the bracket of the vertices 2 and 3, which is not
    the zero-length one, and [vertex_at(1.5)] is the interpolation between
    (1,0) and (2,0) at factor 0.5, exactly the point (1.5, 0). *)
Theorem C2_vertex_at_duplicate_middle :
  let p := CP.__init__ duplicate_middle false REL_TOL in
  CP._index_at p 1.5 = 3%Z
  /\ nth 2 (CP._distances p) 0 < nth 3 (CP._distances p) 0
  /\ CP.vertex_at p 1.5 = Ok (Vec3.lerp (xy 1 0) (xy 2 0) 0.5)
  /\ CP.vertex_at p 1.5 = Ok (xy 1.5 0).
Proof.
  intros p.
  assert (Hinv : distances_invariant p) by apply init_invariant.
  assert (HD : CP._distances p = [0; 1; 1; 2]) by apply duplicate_middle_distances.
  assert (Hidx : bisect_left (CP._distances p) 1.5 = 3%nat)
    by apply duplicate_middle_index.
  destruct (_vertex_at_bracket p 1.5 3 Hinv Hidx) as (Hlt & Hv).
  { rewrite HD. simpl. lia. }
  assert (Hlerp : Vec3.lerp (xy 1 0) (xy 2 0) 0.5 = xy 1.5 0).
  { unfold Vec3.lerp, Vec3.add, Vec3.mul, Vec3.sub, xy. simpl. f_equal; lra. }
  assert (Hat : CP.vertex_at p 1.5 = Ok (Vec3.lerp (xy 1 0) (xy 2 0) 0.5)).
  { unfold CP.vertex_at. unfold CP.length. rewrite HD.
    simpl last. decide_floats.
    change (CP.__len__ p) with 4%Z. simpl.
    rewrite Hv. rewrite HD. simpl. do 2 f_equal. lra. }
  split; [unfold CP._index_at; rewrite Hidx; reflexivity |].
  split; [exact Hlt |].
  split; [exact Hat |].
  rewrite Hat, Hlerp. reflexivity.
Qed.

(** C3. On a polyline that satisfies the distances invariant,
    [vertex_at(distance)] fails with OutOfRange if and only if
    distance < 0 or distance > length; with fewer than 2 vertices it
    always fails, with InsufficientVertices on every distance that is not
    out of range; with at least 2 vertices it returns a point for every
    distance in [0, length]. *)
Theorem C3_vertex_at_errors (p : CP.t) (d : R) :
  distances_invariant p ->
  (CP.vertex_at p d = Raise OutOfRange <-> d < 0 \/ d > CP.length p)
  /\ ((CP.__len__ p < 2)%Z ->
      (exists e, CP.vertex_at p d = Raise e)
      /\ (0 <= d <= CP.length p ->
          CP.vertex_at p d = Raise InsufficientVertices))
  /\ ((2 <= CP.__len__ p)%Z -> 0 <= d <= CP.length p ->
      exists v, CP.vertex_at p d = Ok v).
Proof.
  intros Hinv.
  assert (Hout : d < 0 \/ d > CP.length p -> CP.vertex_at p d = Raise OutOfRange).
  { intros [H | H]; unfold CP.vertex_at; decide_floats; reflexivity. }
  assert (Hfew : (CP.__len__ p < 2)%Z -> 0 <= d <= CP.length p ->
                 CP.vertex_at p d = Raise InsufficientVertices).
  { intros Hn [H0 H1]. unfold CP.vertex_at. decide_floats.
    destruct (Z.ltb_spec (CP.__len__ p) 2); [reflexivity | lia]. }
  assert (Hmany : (2 <= CP.__len__ p)%Z -> 0 <= d <= CP.length p ->
                  exists v, CP.vertex_at p d = Ok v).
  { intros Hn [H0 H1]. unfold CP.vertex_at. decide_floats.
    destruct (Z.ltb_spec (CP.__len__ p) 2); [lia |].
    apply _vertex_at_in_range; try assumption.
    intros Hnil. unfold CP.__len__, len in Hn. rewrite Hnil in Hn.
    simpl in Hn. lia. }
  assert (Hrange : d < 0 \/ d > CP.length p \/ 0 <= d <= CP.length p) by lra.
  split; [split; [| exact Hout] |].
  - intros Hraise.
    destruct Hrange as [H | [H | H]]; [left; exact H | right; exact H |].
    exfalso. destruct (Z.lt_ge_cases (CP.__len__ p) 2) as [Hn | Hn].
    + rewrite (Hfew Hn H) in Hraise. discriminate.
    + destruct (Hmany Hn H) as (v & Hv). rewrite Hv in Hraise. discriminate.
  - split; [| exact Hmany].
    intros Hn. split; [| exact (Hfew Hn)].
    destruct Hrange as [H | [H | H]].
    + eexists. apply Hout. left. exact H.
    + eexists. apply Hout. right. exact H.
    + eexists. apply (Hfew Hn H).
Qed.

Lemma C3_vertex_at_errors_witness :
  let p := CP.__init__ lshape false REL_TOL in
  exists v, CP.vertex_at p 5 = Ok v.
Proof.
  intros p.
  apply (C3_vertex_at_errors p 5 (init_invariant lshape false REL_TOL)).
  - unfold p, CP.__len__, len. simpl. lia.
  - unfold p. rewrite init_open. unfold CP.length. simpl CP._distances.
    rewrite lshape_distances. simpl. lra.
Defined.

(** ** Generators *)

(** A generator over [f] ends with an exception only if [f] raised it. *)
Lemma yield_each_error {A B : Type} (f : A -> result B) (ds : list A) (e : exn) :
  snd (yield_each f ds) = Some e -> exists d, In d ds /\ f d = Raise e.
Proof.
  induction ds as [| d ds IH]; simpl; [discriminate |].
  destruct (f d) as [v | e'] eqn:E.
  - destruct (yield_each f ds) as [vs e'']. simpl in *.
    intros H. destruct (IH H) as (d' & Hin & Hd'). exists d'. auto.
  - simpl. intros H. injection H as ->. exists d. auto.
Qed.

Lemma divide_by_length_loop_error (fuel : nat) (p : CP.t) (total step d : R)
  (vertex : Vec3.t) (ys : list Vec3.t) (e : exn) :
  CP.divide_by_length_loop fuel p total step d vertex = Some (ys, Raise e) ->
  exists d', CP._vertex_at p d' = Raise e.
Proof.
  revert d vertex ys.
  induction fuel as [| fuel IH]; intros d vertex ys; simpl; [discriminate |].
  destruct (Rle_dec d total); [| discriminate].
  destruct (CP._vertex_at p d) as [v | e'] eqn:E.
  - destruct (CP.divide_by_length_loop fuel p total step (d + step) v)
      as [[ys' r'] |] eqn:L; [| discriminate].
    intros H. injection H as _ ->. eapply IH. exact L.
  - intros H. injection H as _ ->. exists d. exact E.
Qed.

(** C9. On a polyline that satisfies the distances invariant the failure
    InternalInconsistency cannot come out of [vertex_at], [divide] or
    [divide_by_length]; whenever the interpolation looks for a bracket, the
    one it keeps after the backward walk has distance0 < distance1. *)
Theorem C9_internal_inconsistency_unreachable (p : CP.t) :
  distances_invariant p ->
  (forall d : R, CP.vertex_at p d <> Raise InternalInconsistency)
  /\ (forall count : Z, snd (CP.divide p count) <> Some InternalInconsistency)
  /\ (forall (fuel : nat) (length : R) (force_last : bool) (g : generated Vec3.t),
         CP.divide_by_length fuel p length force_last = Some g ->
         snd g <> Some InternalInconsistency)
  /\ (forall (d : R) (index1 : Z),
         CP._index_at p d = index1 ->
         (0 < index1 < len (CP._distances p))%Z ->
         exists (distance1 d0 distance0 : R) (index0 : Z),
           getitem (CP._distances p) index1 = Ok distance1
           /\ getitem (CP._distances p) (index1 - 1) = Ok d0
           /\ CP.skip_coincident (CP._distances p) (Z.to_nat (index1 - 1))
                d0 distance1 = Ok (index0, distance0)
           /\ distance0 < distance1).
Proof.
  intros Hinv.
  assert (Hfast : forall d, CP._vertex_at p d <> Raise InternalInconsistency)
    by (intros d; apply _vertex_at_not_arithmetic; exact Hinv).
  repeat split.
  - intros d. unfold CP.vertex_at.
    destruct (Rlt_dec d 0); [discriminate |].
    destruct (Rgt_dec d (CP.length p)); [discriminate |].
    destruct (CP.__len__ p <? 2)%Z; [discriminate | apply Hfast].
  - intros count. unfold CP.divide.
    destruct (count <? 2)%Z; [simpl; discriminate |].
    intros H. apply yield_each_error in H. destruct H as (d & _ & Hd).
    exact (Hfast d Hd).
  - intros fuel step force_last g. unfold CP.divide_by_length.
    destruct (Rle_dec step 0); [intros H; injection H as <-; simpl; discriminate |].
    destruct (CP.__len__ p <? 2)%Z;
      [intros H; injection H as <-; simpl; discriminate |].
    destruct (CP.divide_by_length_loop fuel p (CP.length p) step 0 NULLVEC)
      as [[ys [v | e]] |] eqn:L; [| | discriminate].
    + destruct (force_last && _)%bool; intros H; injection H as <-;
        simpl; discriminate.
    + intros H. injection H as <-. simpl. intros He. injection He as ->.
      apply divide_by_length_loop_error in L. destruct L as (d' & Hd').
      exact (Hfast d' Hd').
  - intros d index1 Hidx Hr. unfold CP._index_at in Hidx. unfold len in Hr.
    set (r := bisect_left (CP._distances p) d) in *.
    destruct (_vertex_at_bracket p d r Hinv eq_refl) as (Hlt & _); [lia |].
    exists (nth r (CP._distances p) 0), (nth (r - 1) (CP._distances p) 0),
      (nth (r - 1) (CP._distances p) 0), (Z.of_nat (r - 1)).
    subst index1.
    replace (Z.of_nat r - 1)%Z with (Z.of_nat (r - 1)) by lia.
    rewrite Nat2Z.id.
    repeat split.
    + apply getitem_of_nat. lia.
    + apply getitem_of_nat. lia.
    + apply skip_coincident_distinct. lra.
    + exact Hlt.
Qed.

Lemma C9_internal_inconsistency_unreachable_witness :
  let p := CP.__init__ duplicate_middle false REL_TOL in
  exists (distance1 d0 distance0 : R) (index0 : Z),
    getitem (CP._distances p) 3 = Ok distance1
    /\ getitem (CP._distances p) (3 - 1) = Ok d0
    /\ CP.skip_coincident (CP._distances p) (Z.to_nat (3 - 1)) d0 distance1
       = Ok (index0, distance0)
    /\ distance0 < distance1.
Proof.
  intros p.
  apply (C9_internal_inconsistency_unreachable p
           (init_invariant duplicate_middle false REL_TOL)) with (d := 1.5).
  - unfold CP._index_at. unfold p. simpl CP._distances.
    rewrite duplicate_middle_index. reflexivity.
  - unfold p. simpl CP._distances. rewrite duplicate_middle_distances.
    unfold len. simpl. lia.
Defined.

(** ** Division by a fixed step *)

Lemma last_cons {A : Type} (v : A) (ys : list A) (d : A) :
  last (v :: ys) d = last ys v.
Proof.
  revert v d. induction ys as [| y ys IH]; intros v d; [reflexivity |].
  change (last (v :: y :: ys) d) with (last (y :: ys) d).
  rewrite (IH y d), (IH y v). reflexivity.
Qed.



Lemma vertex_at_checked (p : CP.t) (d : R) :
  (2 <= CP.__len__ p)%Z -> 0 <= d <= CP.length p ->
  CP.vertex_at p d = CP._vertex_at p d.
Proof.
  intros Hn [H0 H1]. unfold CP.vertex_at. decide_floats.
  destruct (Z.ltb_spec (CP.__len__ p) 2); [lia | reflexivity].
Qed.

Lemma two_vertices_nonempty (p : CP.t) :
  (2 <= CP.__len__ p)%Z -> CP._vertices p <> [].
Proof.
  intros Hn Hnil. unfold CP.__len__, len in Hn. rewrite Hnil in Hn.
  simpl in Hn. lia.
Qed.



Lemma lshape_length : CP.length (CP.__init__ lshape false REL_TOL) = 7.
Proof.
  rewrite init_open. unfold CP.length. simpl CP._distances.
  rewrite lshape_distances. reflexivity.
Qed.

(** ** Closing *)

Lemma float_isclose_refl (a rel_tol : R) :
  Vec3.float_isclose a a rel_tol Vec3.ABS_TOL = true.
Proof.
  unfold Vec3.float_isclose.
  destruct (Rle_dec _ _) as [| H]; [reflexivity | exfalso; apply H].
  replace (a - a) with 0 by lra. rewrite Rabs_R0.
  apply Rle_trans with Vec3.ABS_TOL; [unfold Vec3.ABS_TOL; lra | apply Rmax_r].
Qed.

Lemma isclose_refl (v : Vec3.t) (rel_tol : R) : Vec3.isclose v v rel_tol = true.
Proof.
  unfold Vec3.isclose. rewrite !float_isclose_refl. reflexivity.
Qed.

Lemma nth_0_app {A : Type} (l : list A) (x d : A) :
  l <> [] -> nth 0 (l ++ [x]) d = nth 0 l d.
Proof. destruct l; [contradiction | reflexivity]. Qed.

Lemma len_app_one {A : Type} (l : list A) (x : A) : len (l ++ [x]) = (len l + 1)%Z.
Proof. unfold len. rewrite length_app. simpl. lia. Qed.

(** What the constructor keeps as vertices when asked to close. *)
Lemma init_close_vertices (vs : list Vec3.t) (tol : R) :
  CP._vertices (CP.__init__ vs true tol)
  = if (2 <? len vs)%Z
    then if Vec3.isclose (nth 0 vs NULLVEC) (last vs NULLVEC) tol
         then vs else vs ++ [nth 0 vs NULLVEC]
    else vs.
Proof.
  unfold CP.__init__. simpl andb.
  destruct (2 <? len vs)%Z; [| reflexivity].
  destruct (Vec3.isclose _ _ tol); reflexivity.
Qed.

Lemma init_close_is_closed (vs : list Vec3.t) (tol : R) :
  (2 < len vs)%Z -> CP.is_closed (CP.__init__ vs true tol) = true.
Proof.
  intros Hn. unfold CP.is_closed.
  change (CP._rel_tol (CP.__init__ vs true tol)) with tol.
  rewrite init_close_vertices.
  destruct (Z.ltb_spec 2 (len vs)) as [_ | H]; [| lia].
  destruct (Vec3.isclose (nth 0 vs NULLVEC) (last vs NULLVEC) tol) eqn:E.
  - destruct (Z.ltb_spec 2 (len vs)) as [_ | H]; [exact E | lia].
  - rewrite len_app_one.
    destruct (Z.ltb_spec 2 (len vs + 1)) as [_ | H]; [| lia].
    rewrite nth_0_app, last_last; [apply isclose_refl |].
    intros Hnil. rewrite Hnil in Hn. unfold len in Hn. simpl in Hn. lia.
Qed.

(** C8, as amended. For every input with more than 2 vertices a polyline
    built with close=true is closed.  Closing is idempotent: when the first
    and the last input vertex are already equal within the relative
    tolerance no vertex is appended, and closing the vertices of a polyline
    built with close=true gives that polyline again. *)
Theorem C8_close_idempotent (vertices : list Vec3.t) (rel_tol : R) :
  ((2 < len vertices)%Z ->
   CP.is_closed (CP.__init__ vertices true rel_tol) = true)
  /\ (Vec3.isclose (nth 0 vertices NULLVEC) (last vertices NULLVEC) rel_tol = true ->
      CP._vertices (CP.__init__ vertices true rel_tol) = vertices)
  /\ CP.__init__ (CP._vertices (CP.__init__ vertices true rel_tol)) true rel_tol
     = CP.__init__ vertices true rel_tol.
Proof.
  split; [apply init_close_is_closed |].
  assert (Hkeep : forall vs,
             (len vs <= 2)%Z
             \/ Vec3.isclose (nth 0 vs NULLVEC) (last vs NULLVEC) rel_tol = true ->
             CP.__init__ vs true rel_tol = CP.mk rel_tol vs (_distances vs)).
  { intros vs H. unfold CP.__init__. simpl andb.
    destruct (Z.ltb_spec 2 (len vs)) as [Hn | Hn]; [| reflexivity].
    destruct H as [H | H]; [lia |]. rewrite H. reflexivity. }
  split.
  - intros H. rewrite Hkeep by (right; exact H). reflexivity.
  - destruct (Z.le_gt_cases (len vertices) 2) as [Hn | Hn].
    + rewrite (Hkeep vertices) by (left; exact Hn). simpl CP._vertices.
      apply Hkeep. left. exact Hn.
    + pose proof (init_close_is_closed vertices rel_tol) as Hc.
      unfold CP.is_closed in Hc.
      change (CP._rel_tol (CP.__init__ vertices true rel_tol)) with rel_tol in Hc.
      destruct (Z.ltb_spec 2 (len (CP._vertices (CP.__init__ vertices true rel_tol))))
        as [Hlong | Hshort].
      * rewrite Hkeep by (right; apply Hc; lia). reflexivity.
      * rewrite Hkeep by (left; exact Hshort). reflexivity.
Qed.

Lemma C8_close_idempotent_witness :
  CP.is_closed (CP.__init__ lshape true REL_TOL) = true.
Proof.
  apply (C8_close_idempotent lshape REL_TOL). unfold len. simpl. lia.
Defined.

(** C8, as stated, fails on inputs of at most 2 vertices: built from the two
    vertices (0,0), (1,0) with close=true the polyline is not closed. *)
Lemma C8_close_counterexample :
  CP.is_closed (CP.__init__ unit_segment true REL_TOL) = false.
Proof. reflexivity. Qed.

(** ** The curve approximation *)

Lemma linspace_length (start stop : R) (num : Z) :
  List.length (linspace start stop num) = Z.to_nat num.
Proof.
  unfold linspace. destruct (Z.to_nat num) as [| [| n]]; try reflexivity.
  rewrite length_map, length_seq. reflexivity.
Qed.

(** The constructor succeeds for every positive number of segments. *)
Lemma init_approximates {C : Type} `{SupportsPointMethod C}
  (curve : C) (max_t : R) (segments : Z) :
  (0 < segments)%Z ->
  exists a : AP.t,
    AP.__init__ curve max_t segments = Ok a
    /\ approximates a max_t (Z.to_nat segments).
Proof.
  intros Hseg. unfold AP.__init__.
  destruct (Z.ltb_spec 0 segments) as [_ | Hn]; [| lia].
  assert (Hnz : IZR segments <> 0).
  { intros E. apply eq_IZR in E. lia. }
  rewrite truediv_ok by exact Hnz. simpl bind.
  eexists. split; [reflexivity |].
  unfold approximates. simpl.
  split; [apply distances_invariant_of_vertices |].
  split; [| split; [lia | split; [reflexivity |]]].
  - rewrite length_map, linspace_length. lia.
  - rewrite INR_IZR_INZ, Z2Nat.id by lia. reflexivity.
Qed.

Section Approximation.

Variable a : AP.t.
Variable max_t : R.
Variable n : nat.
Hypothesis a_ok : approximates a max_t n.

Let poly := AP._polyline a.
Let D := CP._distances poly.
Let s := AP._step a.

Lemma approx_distances_length : List.length D = S n.
Proof.
  destruct a_ok as ((Hlen & _) & Hn & _). unfold D, poly. rewrite Hlen. exact Hn.
Qed.

Lemma approx_sorted : nondecreasing D.
Proof. apply invariant_nondecreasing. apply a_ok. Qed.

Lemma approx_length : CP.length poly = nth n D 0.
Proof.
  rewrite length_last. fold D. rewrite approx_distances_length.
  replace (S n - 1)%nat with n by lia. reflexivity.
Qed.

Lemma approx_first : nth 0 D 0 = 0.
Proof. apply invariant_first_zero. apply a_ok. Qed.

(** Station data at a vertex after the first one. *)
Lemma approx_data (r : nat) :
  (0 < r <= n)%nat ->
  exists v, CP.data poly (Z.of_nat r)
            = Ok (nth r D 0, nth r D 0 - nth (r - 1) D 0, v).
Proof.
  intros Hr. pose proof approx_distances_length as HD.
  destruct a_ok as ((Hlen & _) & Hn & _). fold poly in Hlen, Hn.
  unfold CP.data.
  destruct (CP._vertices poly) as [| v0 vs] eqn:EV; [discriminate |].
  destruct (Z.eqb_spec (Z.of_nat r) 0) as [E | _]; [lia |].
  replace (Z.of_nat r - 1)%Z with (Z.of_nat (r - 1)) by lia.
  fold D.
  rewrite (getitem_of_nat D (r - 1) 0) by lia.
  rewrite (getitem_of_nat D r 0) by lia.
  rewrite (getitem_of_nat (v0 :: vs) r NULLVEC) by lia.
  simpl bind. eexists. reflexivity.
Qed.

Lemma approx_data_0 : exists v, CP.data poly 0 = Ok (0, 0, v).
Proof.
  destruct a_ok as (_ & Hn & _). fold poly in Hn. unfold CP.data.
  destruct (CP._vertices poly) as [| v0 vs] eqn:EV; [discriminate |].
  exists v0. reflexivity.
Qed.

(** Inside the polyline the search index is a vertex after the first. *)
Lemma approx_index (d : R) :
  0 < d -> d < CP.length poly ->
  (0 < bisect_left D d <= n)%nat
  /\ nth (bisect_left D d - 1) D 0 < d <= nth (bisect_left D d) D 0.
Proof.
  intros Hpos Hlt.
  pose proof approx_distances_length as HD.
  destruct (bisect_left_lower_bound D d approx_sorted) as (Hb & Hl & Hh).
  rewrite approx_length in Hlt.
  assert (H0 : (0 < bisect_left D d)%nat).
  { destruct (bisect_left D d) eqn:E; [| lia].
    specialize (Hh 0%nat). rewrite approx_first in Hh.
    assert (d <= 0) by (apply Hh; lia). lra. }
  assert (Hn : (bisect_left D d <= n)%nat).
  { destruct (le_lt_dec (bisect_left D d) n) as [| Hgt]; [assumption |].
    assert (nth n D 0 < d) by (apply Hl; lia). lra. }
  split; [lia |]. split; [apply Hl; lia | apply Hh; lia].
Qed.

(** [param_t] never raises; its value in each of its three regions. *)
Lemma param_t_value (d : R) :
  AP.param_t a d
  = Ok (if Rge_dec d (CP.length poly) then max_t
        else if Rle_dec d 0 then Rmin max_t 0
        else Rmin max_t (refined D s d (bisect_left D d))).
Proof.
  assert (Hmax : AP._max_t a = max_t) by apply a_ok.
  unfold AP.param_t. fold poly. rewrite Hmax.
  destruct (Rge_dec d (CP.length poly)) as [Hge | Hlt]; [reflexivity |].
  unfold CP.index_at.
  destruct (Rle_dec d 0) as [Hneg | Hpos].
  - destruct approx_data_0 as (v & Hv). rewrite Hv. simpl bind.
    destruct (Rgt_dec 0 1e-12); [lra |]. simpl bind.
    fold s. replace (s * 0) with 0 by lra. reflexivity.
  - destruct (Rge_dec d (CP.length poly)); [contradiction |].
    destruct (approx_index d) as (Hr & Hlo & Hhi); [lra | lra |].
    unfold CP._index_at. fold D.
    destruct (approx_data (bisect_left D d) Hr) as (v & Hv).
    rewrite Hv. simpl bind. fold s. unfold refined.
    rewrite <- INR_IZR_INZ.
    destruct (Rgt_dec _ 1e-12) as [Hbig |]; [| reflexivity].
    rewrite truediv_ok by lra. reflexivity.
Qed.

End Approximation.

(** The lower bound moves to the right with the key. *)
Lemma bisect_left_monotone (l : list R) (d1 d2 : R) :
  nondecreasing l -> d1 <= d2 -> (bisect_left l d1 <= bisect_left l d2)%nat.
Proof.
  intros Hs Hd.
  destruct (bisect_left_lower_bound l d1 Hs) as (Hb1 & Hl1 & Hh1).
  destruct (bisect_left_lower_bound l d2 Hs) as (Hb2 & Hl2 & Hh2).
  destruct (le_lt_dec (bisect_left l d1) (bisect_left l d2)) as [| Hlt];
    [assumption |].
  specialize (Hl1 _ Hlt). specialize (Hh2 (bisect_left l d2)).
  assert (d2 <= nth (bisect_left l d2) l 0) by (apply Hh2; lia). lra.
Qed.

Lemma init_polyline {C : Type} `{SupportsPointMethod C}
  (curve : C) (max_t : R) (segments : Z) (a : AP.t) :
  AP.__init__ curve max_t segments = Ok a ->
  AP._polyline a
  = CP.__init__ (map (point curve) (linspace 0 max_t (segments + 1))) false REL_TOL.
Proof.
  unfold AP.__init__. destruct (0 <? segments)%Z; [| discriminate].
  destruct (truediv max_t (IZR segments)); simpl; [| discriminate].
  intros E. injection E as <-. reflexivity.
Qed.

(** ** Distances that are not positive *)

(** C10, as amended. For every [ApproxParamT] whose internal polyline has
    positive length, [param_t(distance)] does not raise on a distance <= 0
    and returns min(max_t, 0); with max_t >= 0 that is exactly 0, so no
    negative parameter is returned. *)
Theorem C10_param_t_nonpositive {C : Type} `{SupportsPointMethod C}
  (curve : C) (max_t : R) (segments : Z) :
  (0 < segments)%Z ->
  exists a : AP.t,
    AP.__init__ curve max_t segments = Ok a
    /\ forall d : R,
        0 < CP.length (AP.polyline a) -> d <= 0 ->
        AP.param_t a d = Ok (Rmin max_t 0)
        /\ (0 <= max_t -> AP.param_t a d = Ok 0).
Proof.
  intros Hseg.
  destruct (init_approximates curve max_t segments Hseg) as (a & Hinit & Hok).
  exists a. split; [exact Hinit |].
  intros d Hlen Hd. unfold AP.polyline in Hlen.
  assert (Hval : AP.param_t a d = Ok (Rmin max_t 0)).
  { rewrite (param_t_value a max_t _ Hok d).
    destruct (Rge_dec d _); [lra |].
    destruct (Rle_dec d 0); [reflexivity | contradiction]. }
  split; [exact Hval |].
  intros Hmax. rewrite Hval, Rmin_right by exact Hmax. reflexivity.
Qed.

Lemma ray_length :
  CP.length (CP.__init__ (map (point (mkRay (xy 1 0))) (linspace 0 1 (1 + 1)))
               false REL_TOL) = 1.
Proof.
  rewrite init_open. unfold CP.length. simpl CP._distances.
  change (linspace 0 1 (1 + 1))
    with [0 + INR 0 * ((1 - 0) / INR 1); 0 + INR 1 * ((1 - 0) / INR 1)].
  simpl map. rewrite _distances_cons. simpl stations.
  replace (Vec3.magnitude _) with 1; [simpl; lra |].
  symmetry. apply (magnitude_of_square _ 1); [lra | simpl; lra].
Qed.

Lemma reversed_ray_length :
  CP.length (CP.__init__ (map (point (mkRay (xy 1 0))) (linspace 0 (-1) (1 + 1)))
               false REL_TOL) = 1.
Proof.
  rewrite init_open. unfold CP.length. simpl CP._distances.
  change (linspace 0 (-1) (1 + 1))
    with [0 + INR 0 * ((-1 - 0) / INR 1); 0 + INR 1 * ((-1 - 0) / INR 1)].
  simpl map. rewrite _distances_cons. simpl stations.
  replace (Vec3.magnitude _) with 1; [simpl; lra |].
  symmetry. apply (magnitude_of_square _ 1); [lra | simpl; lra].
Qed.

Lemma C10_param_t_nonpositive_witness :
  exists a : AP.t,
    AP.__init__ (mkRay (xy 1 0)) 1 1 = Ok a
    /\ 0 < CP.length (AP.polyline a)
    /\ AP.param_t a (-3) = Ok 0.
Proof.
  destruct (C10_param_t_nonpositive (mkRay (xy 1 0)) 1 1) as (a & Hinit & Hval);
    [lia |].
  assert (Hlen : 0 < CP.length (AP.polyline a)).
  { unfold AP.polyline. rewrite (init_polyline _ _ _ _ Hinit), ray_length. lra. }
  exists a. split; [exact Hinit |]. split; [exact Hlen |].
  apply (Hval (-3)); lra.
Defined.

(** C10, as stated, fails for a negative [max_t]: on the ray sampled over
    [0, -1] with one segment the polyline has length 1, and [param_t(0)]
    is -1. *)
Lemma C10_param_t_nonpositive_counterexample :
  exists a : AP.t,
    AP.__init__ (mkRay (xy 1 0)) (-1) 1 = Ok a
    /\ 0 < CP.length (AP.polyline a)
    /\ AP.param_t a 0 = Ok (-1)
    /\ AP.param_t a 0 <> Ok 0.
Proof.
  assert (Hseg : (0 < 1)%Z) by lia.
  destruct (init_approximates (mkRay (xy 1 0)) (-1) 1 Hseg) as (a & Hinit & Hok).
  assert (Hlen : CP.length (AP._polyline a) = 1).
  { rewrite (init_polyline _ _ _ _ Hinit). apply reversed_ray_length. }
  assert (Hval : AP.param_t a 0 = Ok (-1)).
  { rewrite (param_t_value a (-1) _ Hok 0). rewrite Hlen.
    destruct (Rge_dec 0 1); [lra |].
    destruct (Rle_dec 0 0); [| lra].
    rewrite Rmin_left by lra. reflexivity. }
  exists a. split; [exact Hinit |]. unfold AP.polyline.
  split; [rewrite Hlen; lra |]. split; [exact Hval |].
  rewrite Hval. intros E. injection E as E. lra.
Qed.

(** ** Further properties: interpolation *)

Lemma vec3_eq (a b : Vec3.t) :
  Vec3.x a = Vec3.x b -> Vec3.y a = Vec3.y b -> Vec3.z a = Vec3.z b -> a = b.
Proof. destruct a, b. simpl. intros -> -> ->. reflexivity. Qed.

Lemma squares_nonneg (u v w : R) : 0 <= u * u + v * v + w * w.
Proof.
  pose proof (Rle_0_sqr u). pose proof (Rle_0_sqr v). pose proof (Rle_0_sqr w).
  unfold Rsqr in *. lra.
Qed.

Lemma squares_zero (u v w : R) :
  u * u + v * v + w * w = 0 -> u = 0 /\ v = 0 /\ w = 0.
Proof.
  intros H.
  pose proof (Rle_0_sqr u). pose proof (Rle_0_sqr v). pose proof (Rle_0_sqr w).
  unfold Rsqr in *.
  repeat split; apply Rsqr_0_uniq; unfold Rsqr; lra.
Qed.

(** Only the zero vector has magnitude 0. *)
Lemma magnitude_zero (a b : Vec3.t) :
  Vec3.magnitude (Vec3.sub a b) = 0 -> a = b.
Proof.
  unfold Vec3.magnitude. intros H.
  apply sqrt_eq_0 in H; [| apply squares_nonneg].
  apply squares_zero in H. simpl in H. destruct H as (Hx & Hy & Hz).
  apply vec3_eq; lra.
Qed.

Lemma lerp_one (a b : Vec3.t) : Vec3.lerp a b 1 = b.
Proof. apply vec3_eq; simpl; lra. Qed.

(** Vertices with the same station coincide. *)
Lemma equal_stations_coincide (p : CP.t) (i j : nat) :
  distances_invariant p ->
  (i <= j < List.length (CP._vertices p))%nat ->
  nth i (CP._distances p) 0 = nth j (CP._distances p) 0 ->
  nth i (CP._vertices p) NULLVEC = nth j (CP._vertices p) NULLVEC.
Proof.
  intros Hinv. pose proof (invariant_nondecreasing p Hinv) as Hs.
  destruct Hinv as (Hlen & _ & Hstep).
  induction j as [| j IH]; intros [Hij Hj] HD.
  - replace i with 0%nat by lia. reflexivity.
  - destruct (Nat.eq_dec i (S j)) as [-> | Hne]; [reflexivity |].
    assert (Hmid : nth i (CP._distances p) 0 <= nth j (CP._distances p) 0)
      by (apply Hs; lia).
    assert (Hup : nth j (CP._distances p) 0 <= nth (S j) (CP._distances p) 0)
      by (apply Hs; lia).
    specialize (Hstep (S j)). replace (S j - 1)%nat with j in Hstep by lia.
    rewrite IH by (try lia; lra).
    symmetry. apply magnitude_zero.
    assert (Hj' : (0 < S j < List.length (CP._vertices p))%nat) by lia.
    specialize (Hstep Hj'). lra.
Qed.

Lemma length_is_last_station (p : CP.t) :
  distances_invariant p ->
  forall i, (i < List.length (CP._vertices p))%nat ->
    0 <= nth i (CP._distances p) 0 <= CP.length p.
Proof.
  intros Hinv i Hi. pose proof (invariant_nondecreasing p Hinv) as Hs.
  pose proof (invariant_first_zero p Hinv) as H0.
  destruct Hinv as (Hlen & _). rewrite length_last. split.
  - pose proof (Hs 0%nat i) as Hle. rewrite H0 in Hle. apply Hle. lia.
  - apply Hs. lia.
Qed.

(** At the station of a vertex the unchecked interpolation returns that
    vertex. *)
Lemma _vertex_at_station (p : CP.t) (i : nat) :
  distances_invariant p ->
  (i < List.length (CP._vertices p))%nat ->
  CP._vertex_at p (nth i (CP._distances p) 0) = Ok (nth i (CP._vertices p) NULLVEC).
Proof.
  intros Hinv Hi.
  pose proof (invariant_nondecreasing p Hinv) as Hs.
  pose proof Hinv as (Hlen & _ & Hstep).
  set (d := nth i (CP._distances p) 0) in *.
  destruct (bisect_left_lower_bound (CP._distances p) d Hs) as (Hb & Hl & Hh).
  set (r := bisect_left (CP._distances p) d) in *.
  assert (Hri : (r <= i)%nat).
  { destruct (le_lt_dec r i) as [| Hlt]; [assumption |].
    specialize (Hl i Hlt). unfold d in Hl. lra. }
  assert (Hdr : nth r (CP._distances p) 0 = d).
  { assert (d <= nth r (CP._distances p) 0) by (apply Hh; lia).
    assert (nth r (CP._distances p) 0 <= d) by (apply Hs; lia). lra. }
  assert (Hv : nth r (CP._vertices p) NULLVEC = nth i (CP._vertices p) NULLVEC).
  { apply equal_stations_coincide; [exact Hinv | lia | exact Hdr]. }
  destruct (Nat.eq_dec r 0) as [E0 | N0].
  - rewrite _vertex_at_first by exact E0.
    rewrite (getitem_of_nat _ 0 NULLVEC) by lia. rewrite <- Hv, E0. reflexivity.
  - destruct (_vertex_at_bracket p d r Hinv eq_refl) as (Hlt & Hok); [lia |].
    rewrite Hok, Hdr.
    replace ((d - nth (r - 1) (CP._distances p) 0)
             / (d - nth (r - 1) (CP._distances p) 0)) with 1 by (field; lra).
    rewrite lerp_one, Hv. reflexivity.
Qed.

(** X1. On a well-formed polyline with at least 2 vertices, [vertex_at(0)]
    returns the first vertex. *)
Theorem X1_vertex_at_start (p : CP.t) :
  distances_invariant p -> (2 <= CP.__len__ p)%Z ->
  CP.vertex_at p 0 = Ok (nth 0 (CP._vertices p) NULLVEC).
Proof.
  intros Hinv Hn.
  pose proof (invariant_length_nonneg p Hinv) as Hlen.
  rewrite vertex_at_checked by (try assumption; lra).
  assert (Hpos : (0 < List.length (CP._vertices p))%nat).
  { unfold CP.__len__, len in Hn. lia. }
  pose proof (_vertex_at_station p 0 Hinv Hpos) as Hst.
  rewrite (invariant_first_zero p Hinv) in Hst. exact Hst.
Qed.

Lemma X1_vertex_at_start_witness :
  let p := CP.__init__ lshape false REL_TOL in
  CP.vertex_at p 0 = Ok (nth 0 (CP._vertices p) NULLVEC).
Proof.
  intros p. apply (X1_vertex_at_start p (init_invariant lshape false REL_TOL)).
  unfold p, CP.__len__, len. simpl. lia.
Defined.

(** X2. The point [vertex_at] returns for a distance d in (0, length] is
    interpolated in the segment that brackets d: with r the first index
    whose station is at least d, r is positive, the station before it is
    below d, and the point is the interpolation between the vertices r - 1
    and r at a factor between 0 and 1. *)
Theorem X2_vertex_at_bracket (p : CP.t) (d : R) :
  distances_invariant p -> (2 <= CP.__len__ p)%Z -> 0 < d <= CP.length p ->
  exists (r : nat) (factor : R),
    CP._index_at p d = Z.of_nat r
    /\ (0 < r < List.length (CP._vertices p))%nat
    /\ nth (r - 1) (CP._distances p) 0 < d <= nth r (CP._distances p) 0
    /\ factor = (d - nth (r - 1) (CP._distances p) 0)
                / (nth r (CP._distances p) 0 - nth (r - 1) (CP._distances p) 0)
    /\ 0 <= factor <= 1
    /\ CP.vertex_at p d
       = Ok (Vec3.lerp (nth (r - 1) (CP._vertices p) NULLVEC)
                       (nth r (CP._vertices p) NULLVEC) factor).
Proof.
  intros Hinv Hn [Hd0 Hd1].
  pose proof Hinv as (Hlen & _).
  pose proof (two_vertices_nonempty p Hn) as Hne.
  assert (Hdne : CP._distances p <> []).
  { intros E. rewrite E in Hlen. destruct (CP._vertices p); [contradiction | discriminate]. }
  destruct (_index_at_first p d Hinv Hd1 Hdne) as (Hr & Hge & Hbelow).
  set (r := bisect_left (CP._distances p) d) in *.
  assert (Hrpos : (0 < r)%nat).
  { destruct r as [| r']; [| lia].
    rewrite (invariant_first_zero p Hinv) in Hge. lra. }
  destruct (_vertex_at_bracket p d r Hinv eq_refl) as (Hlt & Hok); [lia |].
  specialize (Hbelow (r - 1)%nat ltac:(lia)).
  exists r, ((d - nth (r - 1) (CP._distances p) 0)
             / (nth r (CP._distances p) 0 - nth (r - 1) (CP._distances p) 0)).
  split; [reflexivity |]. split; [lia |]. split; [lra |].
  split; [reflexivity |]. split.
  - split.
    + apply Rmult_le_pos; [lra |]. apply Rlt_le, Rinv_0_lt_compat. lra.
    + apply Rmult_le_reg_r
        with (nth r (CP._distances p) 0 - nth (r - 1) (CP._distances p) 0);
        [lra |].
      unfold Rdiv. rewrite Rmult_assoc, Rinv_l by lra. lra.
  - rewrite vertex_at_checked by (try assumption; lra). exact Hok.
Qed.

Lemma X2_vertex_at_bracket_witness :
  let p := CP.__init__ lshape false REL_TOL in
  exists (r : nat) (factor : R),
    CP._index_at p 5 = Z.of_nat r
    /\ (0 < r < List.length (CP._vertices p))%nat
    /\ nth (r - 1) (CP._distances p) 0 < 5 <= nth r (CP._distances p) 0
    /\ factor = (5 - nth (r - 1) (CP._distances p) 0)
                / (nth r (CP._distances p) 0 - nth (r - 1) (CP._distances p) 0)
    /\ 0 <= factor <= 1
    /\ CP.vertex_at p 5
       = Ok (Vec3.lerp (nth (r - 1) (CP._vertices p) NULLVEC)
                       (nth r (CP._vertices p) NULLVEC) factor).
Proof.
  intros p. apply (X2_vertex_at_bracket p 5 (init_invariant lshape false REL_TOL)).
  - unfold p, CP.__len__, len. simpl. lia.
  - unfold p. rewrite lshape_length. lra.
Defined.

(** ** Further properties: length *)

Lemma stations_last (vs : list Vec3.t) (s : R) (prev : Vec3.t) :
  last (stations vs s prev) s = s + segment_sum prev vs.
Proof.
  revert s prev. induction vs as [| v vs IH]; intros s prev; simpl stations;
    [simpl; lra |].
  rewrite last_cons, IH. simpl. lra.
Qed.

Lemma length_of_vertices (tol : R) (vs : list Vec3.t) :
  CP.length (CP.mk tol vs (_distances vs)) = path_length vs.
Proof.
  unfold CP.length. simpl CP._distances. destruct vs as [| v vs]; [reflexivity |].
  rewrite _distances_cons. rewrite last_cons, stations_last. simpl. lra.
Qed.

Lemma segment_sum_app (prev : Vec3.t) (vs : list Vec3.t) (v : Vec3.t) :
  segment_sum prev (vs ++ [v])
  = segment_sum prev vs + Vec3.magnitude (Vec3.sub v (last vs prev)).
Proof.
  revert prev. induction vs as [| u vs IH]; intros prev.
  - simpl. lra.
  - change ((u :: vs) ++ [v]) with (u :: (vs ++ [v])). simpl segment_sum.
    rewrite IH, last_cons. lra.
Qed.

Lemma path_length_app (vs : list Vec3.t) (v : Vec3.t) :
  vs <> [] ->
  path_length (vs ++ [v])
  = path_length vs + Vec3.magnitude (Vec3.sub v (last vs NULLVEC)).
Proof.
  destruct vs as [| u vs]; [contradiction | intros _].
  change ((u :: vs) ++ [v]) with (u :: (vs ++ [v])). unfold path_length.
  rewrite segment_sum_app, last_cons. reflexivity.
Qed.

(** X3. The length of a polyline is the sum of the lengths of the segments
    between its consecutive vertices; closing adds the length of the
    segment from the last vertex back to the first, and only when a vertex
    is appended. *)
Theorem X3_length_is_segment_sum (vertices : list Vec3.t) (rel_tol : R) :
  CP.length (CP.__init__ vertices false rel_tol) = path_length vertices
  /\ CP.length (CP.__init__ vertices true rel_tol)
     = path_length vertices
       + (if (2 <? len vertices)%Z
             && negb (Vec3.isclose (nth 0 vertices NULLVEC)
                        (last vertices NULLVEC) rel_tol)
          then Vec3.magnitude (Vec3.sub (nth 0 vertices NULLVEC)
                                 (last vertices NULLVEC))
          else 0).
Proof.
  split; [rewrite init_open; apply length_of_vertices |].
  unfold CP.__init__. simpl andb.
  destruct (Z.ltb_spec 2 (len vertices)) as [Hn | Hn]; simpl andb.
  - destruct (Vec3.isclose _ _ rel_tol); simpl negb; cbv iota.
    + rewrite length_of_vertices. lra.
    + rewrite length_of_vertices, path_length_app; [reflexivity |].
      intros E. rewrite E in Hn. unfold len in Hn. simpl in Hn. lia.
  - rewrite length_of_vertices. lra.
Qed.

(** ** Further properties: indexing and slicing *)

Section Slices.

Context {A : Type}.

(** The elements a slice picks, by their positions. *)
Let pick (l : list A) (f : nat -> nat) (k : nat) : list A :=
  match nth_error l (f k) with
  | Some a => [a]
  | None => []
  end.

Lemma flat_map_pick_ext (l : list A) (f g : nat -> nat) (ks : list nat) :
  (forall k, In k ks -> f k = g k) ->
  flat_map (pick l f) ks = flat_map (pick l g) ks.
Proof.
  intros Hfg. induction ks as [| k ks IH]; [reflexivity |].
  simpl. unfold pick at 1 3. rewrite (Hfg k) by (left; reflexivity).
  rewrite IH; [reflexivity |]. intros j Hj. apply Hfg. right. exact Hj.
Qed.

Lemma flat_map_shift (g : nat -> list A) (ks : list nat) :
  flat_map g (map S ks) = flat_map (fun k => g (S k)) ks.
Proof.
  induction ks as [| k ks IH]; [reflexivity |]. simpl. rewrite IH. reflexivity.
Qed.

Lemma pick_forward (l : list A) :
  flat_map (pick l (fun k => k)) (seq 0 (List.length l)) = l.
Proof.
  induction l as [| a l IH]; [reflexivity |].
  simpl List.length. rewrite <- cons_seq, <- seq_shift. simpl flat_map.
  rewrite flat_map_shift.
  unfold pick at 1. simpl. f_equal. exact IH.
Qed.

Lemma pick_backward (l : list A) :
  flat_map (pick l (fun k => (List.length l - 1 - k)%nat)) (seq 0 (List.length l))
  = rev l.
Proof.
  induction l as [| a l IH]; [reflexivity |].
  change (List.length (a :: l)) with (S (List.length l)).
  rewrite seq_S, flat_map_app. cbn [flat_map]. rewrite app_nil_r.
  change (rev (a :: l)) with (rev l ++ [a]). f_equal.
  - rewrite <- IH. clear IH.
    assert (Hext : forall ks,
               (forall k, In k ks -> (k < List.length l)%nat) ->
               flat_map (pick (a :: l) (fun k => (S (List.length l) - 1 - k)%nat)) ks
               = flat_map (pick l (fun k => (List.length l - 1 - k)%nat)) ks).
    { induction ks as [| k ks IHk]; intros Hks; [reflexivity |].
      cbn [flat_map]. rewrite IHk by (intros j Hj; apply Hks; right; exact Hj).
      f_equal. unfold pick.
      assert (k < List.length l)%nat by (apply Hks; left; reflexivity).
      replace (S (List.length l) - 1 - k)%nat with (S (List.length l - 1 - k)) by lia.
      reflexivity. }
    apply Hext. intros k Hk. apply in_seq in Hk. lia.
  - unfold pick.
    replace (S (List.length l) - 1 - (0 + List.length l))%nat with 0%nat by lia.
    reflexivity.
Qed.

Lemma getslice_full (l : list A) : getslice l full_slice = Ok l.
Proof.
  unfold getslice, full_slice, slice_indices. simpl.
  destruct (Z.ltb_spec 0 (len l)) as [Hn | Hn]; simpl; f_equal.
  - rewrite Z.div_1_r.
    replace (Z.to_nat (len l - 0 - 1 + 1)) with (List.length l)
      by (unfold len; lia).
    rewrite <- (pick_forward l) at 2. apply flat_map_pick_ext.
    intros k _. lia.
  - unfold len in Hn. destruct l; [reflexivity | simpl in Hn; lia].
Qed.

Lemma getslice_reversed (l : list A) : getslice l reversed_slice = Ok (rev l).
Proof.
  unfold getslice, reversed_slice, slice_indices. simpl.
  destruct (Z.ltb_spec (-1) (len l - 1)) as [Hn | Hn]; simpl; f_equal.
  - rewrite Z.div_1_r.
    replace (Z.to_nat (len l - 1 - -1 - 1 + 1)) with (List.length l)
      by (unfold len; lia).
    rewrite <- pick_backward. apply flat_map_pick_ext.
    intros k Hk. apply in_seq in Hk. unfold len. lia.
  - unfold len in Hn. destruct l as [| a l]; [reflexivity |].
    change (List.length (a :: l)) with (S (List.length l)) in Hn. lia.
Qed.

End Slices.

(** X4. The full slice [p[:]] of a constructed polyline is a polyline equal
    to it: same tolerance, same vertices (a vertex appended on closing
    included) and same distances. *)
Theorem X4_full_slice (vertices : list Vec3.t) (close : bool) (rel_tol : R) :
  let p := CP.__init__ vertices close rel_tol in
  CP.__getitem__ p (CP.Slice full_slice) = Ok (inr p).
Proof.
  intros p. unfold CP.__getitem__. rewrite getslice_full. simpl bind.
  do 2 f_equal.
Qed.

(** X5. The reversed slice [p[::-1]] of a constructed polyline is a polyline
    over the same vertices in reverse order, and reversing it again gives
    the polyline back. *)
Theorem X5_reversed_slice (vertices : list Vec3.t) (close : bool) (rel_tol : R) :
  let p := CP.__init__ vertices close rel_tol in
  exists q : CP.t,
    CP.__getitem__ p (CP.Slice reversed_slice) = Ok (inr q)
    /\ CP._vertices q = rev (CP._vertices p)
    /\ CP.__len__ q = CP.__len__ p
    /\ CP.__getitem__ q (CP.Slice reversed_slice) = Ok (inr p).
Proof.
  intros p.
  assert (Hq : CP.__getitem__ p (CP.Slice reversed_slice)
               = Ok (inr (CP.__init__ (rev (CP._vertices p)) false
                            (CP._rel_tol p)))).
  { unfold CP.__getitem__. rewrite getslice_reversed. reflexivity. }
  eexists. split; [exact Hq |]. split; [reflexivity |]. split.
  - unfold CP.__len__, len. rewrite init_open. cbn [CP._vertices].
    rewrite length_rev. reflexivity.
  - unfold CP.__getitem__. rewrite init_open. cbn [CP._vertices CP._rel_tol].
    rewrite getslice_reversed. cbn [bind]. rewrite rev_involutive.
    reflexivity.
Qed.

(** ** Further properties: stations *)

Lemma getitem_negative {A : Type} (l : list A) (i : Z) :
  (i < 0)%Z -> (0 <= i + len l)%Z -> getitem l i = getitem l (i + len l).
Proof.
  intros Hneg Hpos. unfold getitem. cbv zeta.
  assert (E1 : (i <? 0)%Z = true) by (apply Z.ltb_lt; lia).
  assert (E2 : (i + len l <? 0)%Z = false) by (apply Z.ltb_ge; lia).
  rewrite E1, !E2. reflexivity.
Qed.

Lemma getitem_raises {A : Type} (l : list A) (i : Z) (e : exn) :
  getitem l i = Raise e -> e = IndexError.
Proof.
  unfold getitem. cbv zeta.
  destruct (_ <? 0)%Z; [intros H; injection H as <-; reflexivity |].
  destruct (nth_error l _); [discriminate |].
  intros H. injection H as <-. reflexivity.
Qed.

Lemma data_first (p : CP.t) :
  CP._vertices p <> [] -> CP.data p 0 = Ok (0, 0, nth 0 (CP._vertices p) NULLVEC).
Proof.
  intros Hne. unfold CP.data. destruct (CP._vertices p); [contradiction | reflexivity].
Qed.

Lemma data_at (p : CP.t) (i : nat) :
  List.length (CP._distances p) = List.length (CP._vertices p) ->
  (0 < i < List.length (CP._vertices p))%nat ->
  CP.data p (Z.of_nat i)
  = Ok (nth i (CP._distances p) 0,
        nth i (CP._distances p) 0 - nth (i - 1) (CP._distances p) 0,
        nth i (CP._vertices p) NULLVEC).
Proof.
  intros Hlen Hi. unfold CP.data.
  destruct (CP._vertices p) as [| v0 vs] eqn:EV; [simpl in Hi; lia |].
  destruct (Z.eqb_spec (Z.of_nat i) 0) as [E | _]; [lia |].
  replace (Z.of_nat i - 1)%Z with (Z.of_nat (i - 1)) by lia.
  rewrite (getitem_of_nat _ (i - 1) 0) by lia.
  rewrite (getitem_of_nat _ i 0) by lia.
  rewrite (getitem_of_nat (v0 :: vs) i NULLVEC) by lia.
  reflexivity.
Qed.

(** X6. Station data of a well-formed polyline: on an empty polyline every
    index fails with EmptyPolyline; index 0 gives zeros and the first
    vertex; at an index 0 < i < N the data are the station of the vertex,
    the station minus the station before it, and the vertex; any index
    >= N fails with IndexError; a negative index above -N gives the data
    of the vertex it counts from the end. *)
Theorem X6_data (p : CP.t) :
  distances_invariant p ->
  (CP._vertices p = [] -> forall i : Z, CP.data p i = Raise EmptyPolyline)
  /\ (CP._vertices p <> [] ->
      CP.data p 0 = Ok (0, 0, nth 0 (CP._vertices p) NULLVEC))
  /\ (forall i : nat,
        (0 < i < List.length (CP._vertices p))%nat ->
        CP.data p (Z.of_nat i)
        = Ok (nth i (CP._distances p) 0,
              nth i (CP._distances p) 0 - nth (i - 1) (CP._distances p) 0,
              nth i (CP._vertices p) NULLVEC))
  /\ (forall i : Z,
        CP._vertices p <> [] -> (CP.__len__ p <= i)%Z ->
        CP.data p i = Raise IndexError)
  /\ (forall i : Z,
        (- CP.__len__ p < i < 0)%Z ->
        CP.data p i = CP.data p (i + CP.__len__ p)).
Proof.
  intros Hinv. pose proof Hinv as (Hlen & _ & _).
  split; [| split; [| split; [| split]]].
  - intros Hnil i. unfold CP.data. rewrite Hnil. reflexivity.
  - apply data_first.
  - intros i Hi. apply (data_at p i Hlen Hi).
  - intros i Hne Hi. unfold CP.data, CP.__len__, len in *.
    destruct (CP._vertices p) as [| v0 vs] eqn:EV; [contradiction |].
    destruct (Z.eqb_spec i 0) as [E | _]; [simpl in Hi; lia |].
    destruct (getitem (CP._distances p) (i - 1)) as [d0 | e] eqn:E0; simpl;
      [| apply getitem_raises in E0; rewrite E0; reflexivity].
    rewrite (getitem_out_of_range (CP._distances p) i) by (unfold len; lia).
    reflexivity.
  - intros i Hi. unfold CP.data, CP.__len__ in *.
    destruct (CP._vertices p) as [| v0 vs] eqn:EV; [unfold len in Hi; simpl in Hi; lia |].
    assert (HlenZ : len (CP._distances p) = len (v0 :: vs))
      by (unfold len; rewrite Hlen; reflexivity).
    destruct (Z.eqb_spec i 0) as [E | _]; [lia |].
    destruct (Z.eqb_spec (i + len (v0 :: vs)) 0) as [E | _]; [lia |].
    rewrite (getitem_negative (CP._distances p) (i - 1)) by lia.
    rewrite (getitem_negative (CP._distances p) i) by lia.
    rewrite (getitem_negative (v0 :: vs) i) by lia.
    rewrite HlenZ.
    replace (i - 1 + len (v0 :: vs))%Z with (i + len (v0 :: vs) - 1)%Z by lia.
    reflexivity.
Qed.

Lemma X6_data_witness :
  let p := CP.__init__ lshape false REL_TOL in
  CP.data p (-1) = CP.data p (-1 + CP.__len__ p).
Proof.
  intros p.
  apply (X6_data p (init_invariant lshape false REL_TOL)).
  unfold p, CP.__len__, len. simpl. lia.
Defined.

Lemma last_valid_index_nonneg (p : CP.t) : (0 <= last_valid_index p)%Z.
Proof.
  unfold last_valid_index, CP.__len__, len.
  destruct (CP._vertices p); simpl List.length; lia.
Qed.

Lemma last_valid_index_nonempty (p : CP.t) :
  CP._vertices p <> [] ->
  last_valid_index p = Z.of_nat (List.length (CP._vertices p) - 1).
Proof.
  intros Hne. unfold last_valid_index, CP.__len__, len.
  destruct (CP._vertices p); [contradiction | simpl List.length; lia].
Qed.

(** The index found strictly inside the polyline is a valid index. *)
Lemma _index_at_inside (p : CP.t) (d : R) :
  distances_invariant p -> 0 < d < CP.length p ->
  (0 < bisect_left (CP._distances p) d < List.length (CP._vertices p))%nat.
Proof.
  intros Hinv [Hpos Hlt]. pose proof Hinv as (Hlen & _).
  assert (HD : CP._distances p <> []).
  { intros E. unfold CP.length in Hlt. rewrite E in Hlt. lra. }
  destruct (_index_at_first p d Hinv (Rlt_le _ _ Hlt) HD) as (Hr & Hhi & _).
  split; [| lia].
  destruct (bisect_left (CP._distances p) d); [| lia].
  rewrite (invariant_first_zero p Hinv) in Hhi. lra.
Qed.

Lemma index_at_bounds (p : CP.t) (d : R) :
  distances_invariant p -> (0 <= CP.index_at p d <= last_valid_index p)%Z.
Proof.
  intros Hinv. pose proof (last_valid_index_nonneg p) as Hnn.
  unfold CP.index_at.
  destruct (Rle_dec d 0); [lia |].
  destruct (Rge_dec d (CP.length p)); [rewrite max_last_index; lia |].
  destruct (_index_at_inside p d Hinv) as (H0 & H1); [lra |].
  unfold CP._index_at. rewrite last_valid_index_nonempty; [lia |].
  intros E. rewrite E in H1. simpl in H1. lia.
Qed.

(** X7. [index_at] always returns a valid index of a non-empty well-formed
    polyline (0 on an empty one) and is monotonic non-decreasing in the
    distance. *)
Theorem X7_index_at_monotone (p : CP.t) (d1 d2 : R) :
  distances_invariant p -> d1 <= d2 ->
  (0 <= CP.index_at p d1 <= CP.index_at p d2)%Z
  /\ (CP.index_at p d2 <= last_valid_index p)%Z.
Proof.
  intros Hinv Hd.
  pose proof (index_at_bounds p d1 Hinv) as H1.
  pose proof (index_at_bounds p d2 Hinv) as H2.
  split; [split; [lia |] | lia].
  unfold CP.index_at in *.
  destruct (Rle_dec d1 0); [lia |].
  destruct (Rle_dec d2 0); [lra |].
  destruct (Rge_dec d2 (CP.length p)).
  - rewrite max_last_index in *. lia.
  - destruct (Rge_dec d1 (CP.length p)); [lra |].
    unfold CP._index_at. apply inj_le.
    apply bisect_left_monotone; [apply invariant_nondecreasing; exact Hinv | exact Hd].
Qed.

Lemma X7_index_at_monotone_witness :
  let p := CP.__init__ lshape false REL_TOL in
  (0 <= CP.index_at p 1 <= CP.index_at p 5)%Z
  /\ (CP.index_at p 5 <= last_valid_index p)%Z.
Proof.
  intros p.
  apply (X7_index_at_monotone p 1 5 (init_invariant lshape false REL_TOL)). lra.
Defined.

(** X8. On a non-empty well-formed polyline [data(index_at(distance))]
    never raises: it returns the station data of a vertex whose station is
    at most the length, and at least the distance whenever the distance is
    on the polyline. *)
Theorem X8_data_at_index (p : CP.t) (d : R) :
  distances_invariant p -> CP._vertices p <> [] ->
  exists (station delta : R) (v : Vec3.t),
    CP.data p (CP.index_at p d) = Ok (station, delta, v)
    /\ 0 <= delta
    /\ 0 <= station <= CP.length p
    /\ (d <= CP.length p -> d <= station).
Proof.
  intros Hinv Hne. pose proof Hinv as (Hlen & _ & Hstep).
  pose proof (invariant_first_zero p Hinv) as Hzero.
  assert (Hmain : forall i : nat,
             (i < List.length (CP._vertices p))%nat ->
             exists delta v,
               CP.data p (Z.of_nat i) = Ok (nth i (CP._distances p) 0, delta, v)
               /\ 0 <= delta).
  { intros [| i] Hi.
    - rewrite data_first by exact Hne. rewrite Hzero.
      eexists _, _. split; [reflexivity | lra].
    - rewrite data_at by (try assumption; lia).
      eexists _, _. split; [reflexivity |].
      specialize (Hstep (S i)). rewrite Hstep by lia.
      pose proof (magnitude_nonneg
        (Vec3.sub (nth (S i) (CP._vertices p) NULLVEC)
                  (nth (S i - 1) (CP._vertices p) NULLVEC))). lra. }
  assert (Hsome : forall i : nat,
             (i < List.length (CP._vertices p))%nat ->
             (d <= CP.length p -> d <= nth i (CP._distances p) 0) ->
             exists (station delta : R) (v : Vec3.t),
               CP.data p (Z.of_nat i) = Ok (station, delta, v)
               /\ 0 <= delta
               /\ 0 <= station <= CP.length p
               /\ (d <= CP.length p -> d <= station)).
  { intros i Hi Hd. destruct (Hmain i Hi) as (dl & v & Hdata & Hdl).
    exists (nth i (CP._distances p) 0), dl, v.
    split; [exact Hdata |]. split; [exact Hdl |].
    split; [apply length_is_last_station; assumption | exact Hd]. }
  assert (Hlast : (List.length (CP._vertices p) - 1 < List.length (CP._vertices p))%nat).
  { destruct (CP._vertices p); [contradiction | simpl; lia]. }
  unfold CP.index_at.
  destruct (Rle_dec d 0) as [Hneg | Hpos].
  - apply (Hsome 0%nat); [lia |]. intros _. rewrite Hzero. exact Hneg.
  - destruct (Rge_dec d (CP.length p)) as [Hge | Hlt].
    + rewrite max_last_index, last_valid_index_nonempty by exact Hne.
      apply Hsome; [exact Hlast |].
      intros Hd. rewrite <- Hlen, <- length_last. exact Hd.
    + destruct (_index_at_inside p d Hinv) as (H0 & H1); [lra |].
      assert (HD : CP._distances p <> []).
      { intros E. rewrite E in Hlen. destruct (CP._vertices p); [contradiction | discriminate]. }
      destruct (_index_at_first p d Hinv) as (_ & Hhi & _); [lra | exact HD |].
      unfold CP._index_at. apply Hsome; [exact H1 |]. intros _. exact Hhi.
Qed.

Lemma X8_data_at_index_witness :
  let p := CP.__init__ lshape false REL_TOL in
  exists (station delta : R) (v : Vec3.t),
    CP.data p (CP.index_at p 5) = Ok (station, delta, v)
    /\ 0 <= delta
    /\ 0 <= station <= CP.length p
    /\ (5 <= CP.length p -> 5 <= station).
Proof.
  intros p.
  apply (X8_data_at_index p 5 (init_invariant lshape false REL_TOL)).
  discriminate.
Defined.

(** ** Further properties: division into a number of points *)

Lemma linspace_values (start stop : R) (count : Z) :
  (2 <= count)%Z ->
  linspace start stop count
  = map (fun i => start + INR i * ((stop - start) / INR (Z.to_nat count - 1)))
        (seq 0 (Z.to_nat count)).
Proof.
  intros Hc. unfold linspace.
  destruct (Z.to_nat count) as [| [| m]] eqn:E; try lia.
  replace (S (S m) - 1)%nat with (S m) by lia. reflexivity.
Qed.

(** X9. [divide(count)]: a count below 2 fails with ValueError before any
    point; with count >= 2 an empty polyline ends with IndexError before
    any point, and a non-empty well-formed polyline yields the first
    vertex as its first point. *)
Theorem X9_divide (p : CP.t) (count : Z) :
  distances_invariant p ->
  ((count < 2)%Z -> CP.divide p count = ([], Some (ValueError "invalid count")))
  /\ ((2 <= count)%Z -> CP._vertices p = [] ->
      CP.divide p count = ([], Some IndexError))
  /\ ((2 <= count)%Z -> CP._vertices p <> [] ->
      exists (rest : list Vec3.t) (e : option exn),
        CP.divide p count = (nth 0 (CP._vertices p) NULLVEC :: rest, e)).
Proof.
  intros Hinv. pose proof Hinv as (Hlen & _).
  unfold CP.divide. split; [| split].
  - intros Hc. destruct (Z.ltb_spec count 2) as [_ | H]; [reflexivity | lia].
  - intros Hc Hnil. destruct (Z.ltb_spec count 2) as [H | _]; [lia |].
    rewrite linspace_values by exact Hc.
    destruct (Z.to_nat count) as [| n] eqn:E; [lia |]. simpl.
    rewrite _vertex_at_first.
    + rewrite Hnil. reflexivity.
    + rewrite Hnil in Hlen. destruct (CP._distances p); [reflexivity | discriminate].
  - intros Hc Hne. destruct (Z.ltb_spec count 2) as [H | _]; [lia |].
    rewrite linspace_values by exact Hc.
    destruct (Z.to_nat count) as [| n] eqn:E; [lia |].
    cbn [seq map yield_each]. simpl INR. rewrite Rmult_0_l, Rplus_0_l.
    assert (Hpos : (0 < List.length (CP._vertices p))%nat).
    { destruct (CP._vertices p); [contradiction | simpl; lia]. }
    pose proof (_vertex_at_station p 0 Hinv Hpos) as Hst.
    rewrite (invariant_first_zero p Hinv) in Hst. rewrite Hst.
    destruct (yield_each _ _) as [rest e]. exists rest, e. reflexivity.
Qed.

Lemma X9_divide_witness :
  let p := CP.__init__ lshape false REL_TOL in
  exists (rest : list Vec3.t) (e : option exn),
    CP.divide p 3 = (nth 0 (CP._vertices p) NULLVEC :: rest, e).
Proof.
  intros p.
  apply (X9_divide p 3 (init_invariant lshape false REL_TOL)).
  - lia.
  - discriminate.
Defined.

(** ** Further properties: division by a step, forcing the last vertex *)



(** ** Binary64: comparisons and signs *)

Section FloatOrder.

Import SpecFloat FloatOps.

Lemma ltb_leb (x y : float) : (x <? y)%float = true -> (x <=? y)%float = true.
Proof.
  rewrite FloatAxioms.ltb_spec, FloatAxioms.leb_spec.
  unfold SFltb, SFleb. destruct (SFcompare _ _) as [[| |] |]; easy.
Qed.

Lemma SFcompare_swap (x y : spec_float) :
  SFcompare y x = option_map CompOpp (SFcompare x y).
Proof.
  assert (Hpos : forall p q : positive,
             Pos.compare_cont Eq q p = CompOpp (Pos.compare_cont Eq p q)).
  { intros p q. apply (Pos.compare_antisym p q). }
  destruct x as [[|] | [|] | | [|] mx ex], y as [[|] | [|] | | [|] my ey];
    try reflexivity; cbn [SFcompare option_map]; f_equal;
    rewrite (Z.compare_antisym ex ey);
    destruct (Z.compare ex ey); cbn [CompOpp]; try reflexivity;
    rewrite (Hpos mx my); destruct (Pos.compare_cont Eq mx my); reflexivity.
Qed.

Lemma ltb_asym (x y : float) : (x <? y)%float = true -> (y <? x)%float = false.
Proof.
  rewrite !FloatAxioms.ltb_spec. unfold SFltb.
  rewrite (SFcompare_swap (Prim2SF x) (Prim2SF y)).
  destruct (SFcompare (Prim2SF x) (Prim2SF y)) as [[| |] |]; easy.
Qed.

Lemma ltb_irrefl (x : float) : (x <? x)%float = false.
Proof.
  destruct (x <? x)%float eqn:E; [| reflexivity].
  pose proof (ltb_asym x x E) as E'. congruence.
Qed.

End FloatOrder.

Section FloatSign.

Import SpecFloat FloatOps.

Lemma binary_round_aux_sign (m e : Z) (l : location) :
  B.sign_clear (binary_round_aux prec emax false m e l).
Proof.
  unfold binary_round_aux.
  destruct (shr_fexp prec emax m e l) as [mrs e'].
  destruct (shr_fexp prec emax _ e' loc_Exact) as [mrs' e''].
  destruct (shr_m mrs'); [exact I | | exact I].
  destruct (Z.leb e'' (emax - prec)); exact I.
Qed.

Lemma binary_round_sign (m : positive) (e : Z) :
  B.sign_clear (binary_round prec emax false m e).
Proof.
  unfold binary_round. destruct (shl_align _ _ _) as [mz ez].
  apply binary_round_aux_sign.
Qed.

Lemma binary_normalize_sign (n e : Z) :
  (0 <= n)%Z -> B.sign_clear (binary_normalize prec emax n e false).
Proof.
  intros Hn. destruct n as [| p | p]; [exact I | | lia].
  apply binary_round_sign.
Qed.

Lemma SFldexp_sign (s : spec_float) (e : Z) :
  B.sign_clear s -> B.sign_clear (SFldexp prec emax s e).
Proof.
  destruct s as [[|] | [|] | | [|] m ex]; try easy.
  intros _. apply binary_round_sign.
Qed.

Lemma SFdiv_sign (x y : spec_float) :
  B.sign_clear x -> B.sign_clear y -> B.sign_clear (SFdiv prec emax x y).
Proof.
  destruct x as [[|] | [|] | | [|] mx ex], y as [[|] | [|] | | [|] my ey];
    try easy.
  intros _ _. cbn [SFdiv xorb].
  destruct (SFdiv_core_binary _ _ _ _ _ _) as [[mz ez] lz].
  apply binary_round_aux_sign.
Qed.

Lemma above_zero_sign_clear (s : spec_float) : B.above_zero s -> B.sign_clear s.
Proof. destruct s as [[|] | [|] | | [|] m e]; easy. Qed.

Lemma of_Z_sign (n : Z) : (0 <= n)%Z -> B.sign_clear (Prim2SF (B.of_Z n)).
Proof.
  intros Hn. unfold B.of_Z.
  pose proof (binary_normalize_sign n 0 Hn) as Hs.
  destruct (binary_normalize prec emax n 0 false) as [[|] | [|] | | [|] m e];
    try contradiction; try exact I.
  cbn [SF2Prim].
  rewrite FloatLemmas.Z_ldexp_spec. apply SFldexp_sign.
  rewrite FloatAxioms.of_uint63_spec. apply binary_normalize_sign.
  apply Uint63.to_Z_bounded.
Qed.

Lemma leb_zero_above (t : float) :
  (t <=? 0)%float = false -> B.above_zero (Prim2SF t).
Proof.
  rewrite FloatAxioms.leb_spec.
  change (Prim2SF 0) with (S754_zero false).
  destruct (Prim2SF t) as [[|] | [|] | | [|] m e]; easy.
Qed.

Lemma leb_above (m t : float) :
  (m <=? t)%float = false -> B.above_zero (Prim2SF t) ->
  Prim2SF t = S754_nan \/ B.above_zero (Prim2SF m).
Proof.
  rewrite FloatAxioms.leb_spec.
  destruct (Prim2SF t) as [[|] | [|] | | [|] mt et]; try easy; auto;
    destruct (Prim2SF m) as [[|] | [|] | | [|] mm em]; try easy; auto.
Qed.

Lemma div_nan_l (x y : float) :
  Prim2SF x = S754_nan -> Prim2SF (x / y)%float = S754_nan.
Proof. intros E. rewrite FloatAxioms.div_spec, E. reflexivity. Qed.

Lemma int_floor (q : float) : B.sign_clear (Prim2SF q) -> B.int q = B.floor q.
Proof.
  unfold B.int, B.floor.
  destruct (Prim2SF q) as [[|] | [|] | | [|] m e]; easy.
Qed.

Lemma floor_sign (q : float) (i : Z) :
  B.sign_clear (Prim2SF q) -> B.floor q = Ok i -> (0 <= i)%Z.
Proof.
  unfold B.floor.
  destruct (Prim2SF q) as [[|] | [|] | | [|] m e]; try easy.
  - intros _ E. assert (i = 0%Z) by congruence. lia.
  - intros _ E.
    assert (Hi : i = match e with
                     | Z.neg k => (Z.pos m / 2 ^ Z.pos k)%Z
                     | _ => (Z.pos m * 2 ^ e)%Z
                     end) by (destruct e; congruence).
    rewrite Hi. destruct e as [| k | k].
    + apply Z.mul_nonneg_nonneg; [lia |]. apply Z.pow_nonneg. lia.
    + apply Z.mul_nonneg_nonneg; [lia |]. apply Z.pow_nonneg. lia.
    + apply Z.div_pos; [lia |]. apply Z.pow_pos_nonneg; lia.
Qed.

Lemma ltb_nonzero (c d : float) :
  B.above_zero (Prim2SF c) -> (c <? d)%float = true -> (d =? 0)%float = false.
Proof.
  rewrite FloatAxioms.ltb_spec, FloatAxioms.eqb_spec.
  change (Prim2SF 0) with (S754_zero false).
  destruct (Prim2SF c) as [[|] | [|] | | [|] mc ec]; try easy;
    destruct (Prim2SF d) as [[|] | [|] | | [|] md ed]; easy.
Qed.

End FloatSign.

(** ** Binary64: the polyline and its search *)

Lemma distances64_fold (vs : list V64.t) (s : float) (ds : list float)
  (prev : V64.t) :
  List.length (snd (fst (fold_left B.polyline._distances_step vs (s, ds, prev))))
  = (List.length ds + List.length vs)%nat.
Proof.
  revert s ds prev.
  induction vs as [| v vs IH]; intros s ds prev; cbn [fold_left].
  - cbn. lia.
  - destruct ds as [| d0 ds0]; cbn [B.polyline._distances_step];
      rewrite IH, length_app; cbn [List.length]; lia.
Qed.

Lemma distances64_length (vs : list V64.t) :
  List.length (B.polyline._distances vs) = List.length vs.
Proof.
  unfold B.polyline._distances.
  pose proof (distances64_fold vs 0 [] B.NULLVEC) as H.
  destruct (fold_left _ vs _) as [[s ds] prev]. exact H.
Qed.

Lemma linspace64_length (start stop : float) (num : Z) :
  List.length (B.linspace start stop num) = Z.to_nat num.
Proof.
  unfold B.linspace.
  destruct (Z.to_nat num) as [| [| n]]; try reflexivity.
  rewrite length_map, length_seq. reflexivity.
Qed.

Lemma bisect_loop64 (a : list float) (x : float) (fuel lo hi : nat) :
  (lo <= hi)%nat ->
  (lo <= B.bisect_loop fuel a x lo hi <= hi)%nat
  /\ ((lo < B.bisect_loop fuel a x lo hi)%nat ->
      (nth (B.bisect_loop fuel a x lo hi - 1) a 0 <? x)%float = true).
Proof.
  revert lo hi.
  induction fuel as [| fuel IH]; intros lo hi Hle; cbn [B.bisect_loop].
  - split; lia.
  - destruct (Nat.ltb_spec lo hi) as [Hlt | _]; [| split; lia].
    assert (Hmid : (lo <= (lo + hi) / 2 < hi)%nat).
    { split.
      - apply Nat.div_le_lower_bound; lia.
      - apply Nat.Div0.div_lt_upper_bound; lia. }
    destruct (nth ((lo + hi) / 2) a 0 <? x)%float eqn:E.
    + destruct (IH (S ((lo + hi) / 2)) hi) as (Hb & Hp); [lia |].
      split; [lia |]. intros _.
      destruct (Nat.eq_dec (B.bisect_loop fuel a x (S ((lo + hi) / 2)) hi)
                           (S ((lo + hi) / 2))) as [-> | Hne].
      * replace (S ((lo + hi) / 2) - 1)%nat with ((lo + hi) / 2)%nat by lia.
        exact E.
      * apply Hp. lia.
    + destruct (IH lo ((lo + hi) / 2)%nat) as (Hb & Hp); [lia |].
      split; [lia | exact Hp].
Qed.

(** Iterations beyond [hi - lo] are never used: the loop has been left by
    its own test. *)
Lemma bisect_loop64_fuel (a : list float) (x : float) (fuel extra lo hi : nat) :
  (hi - lo <= fuel)%nat ->
  B.bisect_loop (fuel + extra) a x lo hi = B.bisect_loop fuel a x lo hi.
Proof.
  revert lo hi.
  induction fuel as [| fuel IH]; intros lo hi Hfuel.
  - destruct extra as [| extra]; [reflexivity |].
    cbn [Nat.add B.bisect_loop].
    destruct (Nat.ltb_spec lo hi) as [Hlt | _]; [lia | reflexivity].
  - cbn [Nat.add B.bisect_loop].
    destruct (Nat.ltb_spec lo hi) as [Hlt | _]; [| reflexivity].
    assert (Hmid : (lo <= (lo + hi) / 2 < hi)%nat).
    { split.
      - apply Nat.div_le_lower_bound; lia.
      - apply Nat.Div0.div_lt_upper_bound; lia. }
    destruct (nth ((lo + hi) / 2) a 0 <? x)%float; apply IH; lia.
Qed.

Lemma bisect_left64_inside (a : list float) (x : float) :
  a <> [] -> (last a 0 <=? x)%float = false ->
  (B.bisect_left a x < List.length a)%nat.
Proof.
  intros Hne Hlast. unfold B.bisect_left.
  destruct (bisect_loop64 a x (List.length a) 0 (List.length a)) as (Hb & Hp);
    [lia |].
  destruct (Nat.eq_dec (B.bisect_loop (List.length a) a x 0 (List.length a))
                       (List.length a)) as [E | Hlt]; [| lia].
  assert (Hpos : (0 < List.length a)%nat)
    by (destruct a; [contradiction | cbn; lia]).
  rewrite E in Hp. specialize (Hp Hpos).
  rewrite <- last_nth in Hp. apply ltb_leb in Hp. congruence.
Qed.

Lemma length64_last (p : CP64.t) :
  CP64.length p = last (CP64._distances p) 0%float.
Proof. unfold CP64.length. destruct (CP64._distances p); reflexivity. Qed.

Lemma index_at64_inside (p : CP64.t) (d : float) :
  List.length (CP64._distances p) = List.length (CP64._vertices p) ->
  CP64._vertices p <> [] ->
  (CP64.length p <=? d)%float = false ->
  exists i : nat,
    CP64.index_at p d = Z.of_nat i /\ (i < List.length (CP64._vertices p))%nat.
Proof.
  intros Hlen Hne Hd. unfold CP64.index_at. rewrite Hd.
  assert (Hpos : (0 < List.length (CP64._vertices p))%nat)
    by (destruct (CP64._vertices p); [contradiction | cbn; lia]).
  destruct (d <=? 0)%float; [exists 0%nat; split; [reflexivity | exact Hpos] |].
  exists (B.bisect_left (CP64._distances p) d). split; [reflexivity |].
  rewrite <- Hlen. apply bisect_left64_inside.
  - intros E. rewrite E in Hlen. cbn in Hlen. lia.
  - rewrite <- length64_last. exact Hd.
Qed.

Lemma data64_at (p : CP64.t) (i : nat) :
  List.length (CP64._distances p) = List.length (CP64._vertices p) ->
  (i < List.length (CP64._vertices p))%nat ->
  exists (station d0 : float) (v : V64.t),
    CP64.data p (Z.of_nat i) = Ok (station, d0, v).
Proof.
  intros Hlen Hi. unfold CP64.data.
  destruct (CP64._vertices p) as [| v0 vs] eqn:EV; [cbn in Hi; lia |].
  destruct (Z.eqb_spec (Z.of_nat i) 0) as [E | Hne].
  - cbn. eauto.
  - replace (Z.of_nat i - 1)%Z with (Z.of_nat (i - 1)) by lia.
    rewrite (getitem_of_nat _ (i - 1) 0%float) by lia.
    rewrite (getitem_of_nat _ i 0%float) by lia.
    rewrite (getitem_of_nat (v0 :: vs) i B.NULLVEC) by exact Hi.
    cbn. eauto.
Qed.

(** What a constructed approximation holds. *)
Lemma init64 {C : Type} `{B.polyline.SupportsPointMethod C}
  (curve : C) (max_t : float) (segments : Z) (a : AP64.t) :
  AP64.__init__ curve max_t segments = Ok a ->
  (0 < segments)%Z
  /\ (Z.abs segments < 2 ^ 1024 - 2 ^ 970)%Z
  /\ (B.of_Z segments =? 0)%float = false
  /\ AP64._max_t a = max_t
  /\ AP64._step a = (max_t / B.of_Z segments)%float
  /\ List.length (CP64._vertices (AP64._polyline a)) = S (Z.to_nat segments)
  /\ List.length (CP64._distances (AP64._polyline a))
     = List.length (CP64._vertices (AP64._polyline a)).
Proof.
  unfold AP64.__init__.
  destruct (Z.ltb_spec 0 segments) as [Hseg | _]; [| discriminate].
  unfold B.float_of_int.
  destruct (Z.ltb_spec (Z.abs segments) (2 ^ 1024 - 2 ^ 970)) as [Hb | _];
    [| discriminate].
  cbn [bind]. unfold B.truediv.
  destruct (B.of_Z segments =? 0)%float eqn:E0; [discriminate |].
  cbn [bind]. intros [= <-]. cbn [AP64._max_t AP64._step AP64._polyline].
  repeat (split; [first [assumption | reflexivity] |]).
  split.
  - cbn. rewrite length_map, linspace64_length. lia.
  - cbn. apply distances64_length.
Qed.

(** ** Binary64: the claims on [ApproxParamT] *)

Lemma min64_bound (m t : float) : (m <? B.min m t)%float = false.
Proof.
  unfold B.min. destruct (t <? m)%float eqn:E.
  - apply ltb_asym. exact E.
  - apply ltb_irrefl.
Qed.

Lemma float_of_int_ok (n : Z) :
  (Z.abs n < 2 ^ 1024 - 2 ^ 970)%Z -> B.float_of_int n = Ok (B.of_Z n).
Proof.
  intros Hn. unfold B.float_of_int.
  destruct (Z.ltb_spec (Z.abs n) (2 ^ 1024 - 2 ^ 970)); [reflexivity | lia].
Qed.

(** C6, as amended. For every constructed [ApproxParamT] and every
    distance, [param_t] returns a parameter, never one greater than
    [max_t], and every distance >= the length of the internal polyline maps
    to exactly [max_t]. *)
Theorem C6_param_t_bounded {C : Type} `{B.polyline.SupportsPointMethod C}
  (curve : C) (max_t : float) (segments : Z) (a : AP64.t) (d : float) :
  AP64.__init__ curve max_t segments = Ok a ->
  exists t : float,
    AP64.param_t a d = Ok t
    /\ (AP64.max_t a <? t)%float = false
    /\ ((CP64.length (AP64.polyline a) <=? d)%float = true -> t = AP64.max_t a).
Proof.
  intros Hinit.
  destruct (init64 curve max_t segments a Hinit)
    as (Hseg & Hb & _ & _ & _ & Hn & Hlen).
  unfold AP64.param_t, AP64.max_t, AP64.polyline.
  destruct (CP64.length (AP64._polyline a) <=? d)%float eqn:Ed.
  { exists (AP64._max_t a). split; [reflexivity |].
    split; [apply ltb_irrefl | reflexivity]. }
  assert (Hne : CP64._vertices (AP64._polyline a) <> []).
  { intros E. rewrite E in Hn. discriminate. }
  destruct (index_at64_inside _ d Hlen Hne Ed) as (i & Ei & Hi).
  destruct (data64_at _ i Hlen Hi) as (station & d0 & v & Edata).
  rewrite Ei, Edata. cbn [bind].
  rewrite float_of_int_ok by lia. cbn [bind].
  destruct (1e-12 <? d0)%float eqn:E12.
  - assert (Hd0 : (d0 =? 0)%float = false).
    { apply (ltb_nonzero 1e-12 d0); [vm_compute; exact I | exact E12]. }
    unfold B.truediv. rewrite Hd0. cbn [bind].
    eexists. split; [reflexivity |].
    split; [apply min64_bound | discriminate].
  - cbn [bind]. eexists. split; [reflexivity |].
    split; [apply min64_bound | discriminate].
Qed.

Lemma C6_param_t_bounded_witness :
  exists (a : AP64.t) (t : float),
    AP64.__init__ (B.mkRay (B.xy 30 0)) 0.1 1 = Ok a
    /\ AP64.param_t a 1.5 = Ok t
    /\ (AP64.max_t a <? t)%float = false
    /\ ((CP64.length (AP64.polyline a) <=? 1.5)%float = true -> t = AP64.max_t a).
Proof.
  eexists.
  assert (Hinit : AP64.__init__ (B.mkRay (B.xy 30 0)) 0.1 1
                  = Ok (AP64.mk (CP64.mk 1e-9 [B.xy 0 0; B.xy 3 0] [0; 3]%float)
                          0.1 0.1)) by (vm_compute; reflexivity).
  destruct (C6_param_t_bounded _ _ _ _ 1.5%float Hinit) as (t & Ht).
  exists t. split; [exact Hinit | exact Ht].
Defined.

(** C6, as stated, fails: [param_t] is not monotonic.  On the ray sampled
    over [0, 0.1] with one segment the stations are 0 and 3 and the step is
    0.1; [param_t(0)] is 0, and [param_t(1e-16)] is
    0.1 - 0.1 * 3 / 3 = -1.39e-17 in binary64, below it. *)
Lemma C6_param_t_counterexample :
  exists a : AP64.t,
    AP64.__init__ (B.mkRay (B.xy 30 0)) 0.1 1 = Ok a
    /\ (0 <=? 1e-16)%float = true
    /\ AP64.param_t a 0 = Ok 0%float
    /\ AP64.param_t a 1e-16 = Ok (-1.3877787807814457e-17)%float
    /\ (-1.3877787807814457e-17 <? 0)%float = true.
Proof.
  eexists. split; [vm_compute; reflexivity |].
  repeat split; vm_compute; reflexivity.
Qed.

(** Past the two clamps of [distance] the quotient t / step is not
    negative: t is above zero, [max_t] is above t and the number of
    segments is positive. *)
Lemma quotient_sign {C : Type} `{B.polyline.SupportsPointMethod C}
  (curve : C) (max_t : float) (segments : Z) (a : AP64.t) (t : float) :
  AP64.__init__ curve max_t segments = Ok a ->
  (t <=? 0)%float = false -> (AP64._max_t a <=? t)%float = false ->
  B.sign_clear (FloatOps.Prim2SF (t / AP64._step a)%float).
Proof.
  intros Hinit Ht Hmax.
  destruct (init64 curve max_t segments a Hinit)
    as (Hseg & _ & _ & Em & Es & _ & _).
  pose proof (leb_zero_above t Ht) as Habove.
  destruct (leb_above _ t Hmax Habove) as [Hnan | Hm].
  - rewrite (div_nan_l t _ Hnan). exact I.
  - rewrite FloatAxioms.div_spec. apply SFdiv_sign.
    + apply above_zero_sign_clear. exact Habove.
    + rewrite Es, FloatAxioms.div_spec. apply SFdiv_sign.
      * apply above_zero_sign_clear. rewrite <- Em. exact Hm.
      * apply of_Z_sign. lia.
Qed.

(** C5, as amended. For every constructed [ApproxParamT] the step is
    max_t / segments, and for every parameter t, [distance(t)] returns 0 if
    t <= 0; returns the length of the internal polyline if t > 0 and
    t >= max_t; and otherwise, when the step is not zero and
    index = floor(t / step) + 1 is at most the number of segments, the
    polyline has station data (station, delta, _) at that index and
    [distance(t)] returns station - delta * (step * index - t) / step,
    every operation in binary64.  There the truncation of the code is the
    floor, the conversion of the index does not overflow and the second
    division does not raise. *)
Theorem C5_distance {C : Type} `{B.polyline.SupportsPointMethod C}
  (curve : C) (max_t : float) (segments : Z) (a : AP64.t) (t : float) :
  AP64.__init__ curve max_t segments = Ok a ->
  AP64._step a = (max_t / B.of_Z segments)%float
  /\ ((t <=? 0)%float = true -> AP64.distance a t = Ok 0%float)
  /\ ((t <=? 0)%float = false -> (AP64.max_t a <=? t)%float = true ->
      AP64.distance a t = Ok (CP64.length (AP64.polyline a)))
  /\ ((t <=? 0)%float = false -> (AP64.max_t a <=? t)%float = false ->
      let step := AP64._step a in
      forall index : Z,
        (step =? 0)%float = false ->
        B.floor (t / step) = Ok (index - 1)%Z ->
        (index <= segments)%Z ->
        exists (station delta : float) (v : V64.t),
          CP64.data (AP64.polyline a) index = Ok (station, delta, v)
          /\ AP64.distance a t
             = Ok (station - delta * (step * B.of_Z index - t) / step)%float).
Proof.
  intros Hinit.
  destruct (init64 curve max_t segments a Hinit)
    as (Hseg & Hb & _ & _ & Es & Hn & Hlen).
  split; [exact Es |].
  unfold AP64.distance, AP64.max_t, AP64.polyline.
  split; [intros ->; reflexivity |].
  split; [intros -> ->; reflexivity |].
  intros Ht Hmax index Hstep Hfloor Hindex.
  pose proof (quotient_sign curve max_t segments a t Hinit Ht Hmax) as Hsign.
  pose proof (floor_sign _ _ Hsign Hfloor) as Hi.
  destruct (data64_at (AP64._polyline a) (Z.to_nat index) Hlen)
    as (station & delta & v & Hdata); [lia |].
  rewrite Z2Nat.id in Hdata by lia.
  exists station, delta, v. split; [exact Hdata |].
  rewrite Ht, Hmax. unfold B.truediv. rewrite Hstep. cbn [bind].
  rewrite (int_floor _ Hsign), Hfloor. cbn [bind].
  replace (index - 1 + 1)%Z with index by lia.
  rewrite Hdata. cbn [bind].
  rewrite float_of_int_ok by lia.
  reflexivity.
Qed.

Lemma C5_distance_witness :
  exists (a : AP64.t) (station delta : float) (v : V64.t),
    AP64.__init__ (B.mkRay (B.xy 1 0)) 1 4 = Ok a
    /\ CP64.data (AP64.polyline a) 2 = Ok (station, delta, v)
    /\ AP64.distance a 0.3
       = Ok (station - delta * (AP64._step a * B.of_Z 2 - 0.3) / AP64._step a)%float.
Proof.
  eexists.
  assert (Hinit : AP64.__init__ (B.mkRay (B.xy 1 0)) 1 4
                  = Ok (AP64.mk
                          (CP64.mk 1e-9
                             [B.xy 0 0; B.xy 0.25 0; B.xy 0.5 0; B.xy 0.75 0;
                              B.xy 1 0]
                             [0; 0.25; 0.5; 0.75; 1]%float)
                          1 0.25)) by (vm_compute; reflexivity).
  destruct (C5_distance _ _ _ _ 0.3%float Hinit) as (_ & _ & _ & Hin).
  destruct (Hin eq_refl eq_refl 2%Z) as (station & delta & v & Hdata & Hval).
  - vm_compute. reflexivity.
  - vm_compute. reflexivity.
  - lia.
  - exists station, delta, v. split; [exact Hinit |].
    split; [exact Hdata | exact Hval].
Defined.

(** C5, as stated, fails in three ways.  With max_t = -1 and t = -0.5,
    t >= max_t and [distance] returns 0, not the length 1 of the polyline.
    With max_t = 1, three segments and t = 0.9999999999999999 < max_t the
    quotient t / step is rounded to 3.0, the index is 4 on a polyline of 4
    vertices and [distance] raises IndexError.  With max_t = 1e-323 and four
    segments the step underflows to 0 and [distance(5e-324)] raises
    ZeroDivisionError. *)
Lemma C5_distance_counterexample :
  (exists a : AP64.t,
      AP64.__init__ (B.mkRay (B.xy 1 0)) (-1) 1 = Ok a
      /\ (AP64.max_t a <=? -0.5)%float = true
      /\ AP64.distance a (-0.5) = Ok 0%float
      /\ CP64.length (AP64.polyline a) = 1%float)
  /\ (exists a : AP64.t,
         AP64.__init__ (B.mkRay (B.xy 1 0)) 1 3 = Ok a
         /\ (0.9999999999999999 <=? 0)%float = false
         /\ (AP64.max_t a <=? 0.9999999999999999)%float = false
         /\ (0.9999999999999999 / AP64._step a)%float = 3%float
         /\ CP64.__len__ (AP64.polyline a) = 4%Z
         /\ AP64.distance a 0.9999999999999999 = Raise IndexError)
  /\ (exists a : AP64.t,
         AP64.__init__ (B.mkRay (B.xy 1 0)) 1e-323 4 = Ok a
         /\ (5e-324 <=? 0)%float = false
         /\ (AP64.max_t a <=? 5e-324)%float = false
         /\ AP64._step a = 0%float
         /\ AP64.distance a 5e-324 = Raise ZeroDivisionError).
Proof.
  split; [| split].
  - eexists. split; [vm_compute; reflexivity |].
    repeat split; vm_compute; reflexivity.
  - eexists. split; [vm_compute; reflexivity |].
    repeat split; vm_compute; reflexivity.
  - eexists. split; [vm_compute; reflexivity |].
    repeat split; vm_compute; reflexivity.
Qed.

(** ** Binary64: division by a fixed step *)

Lemma vertex_at64_ok (p : CP64.t) (d : float) (v : V64.t) :
  CP64.vertex_at p d = Ok v -> CP64._vertex_at p d = Ok v.
Proof.
  unfold CP64.vertex_at.
  destruct (d <? 0)%float; [discriminate |].
  destruct (CP64.length p <? d)%float; [discriminate |].
  destruct (CP64.__len__ p <? 2)%Z; [discriminate |].
  intros E. exact E.
Qed.

(** A run of the stepping loop from the distance [d]: the points at the
    distances that stay on the polyline, until one leaves it. *)
Lemma divide_by_length_loop64 (p : CP64.t) (step : float)
  (points : list V64.t) :
  forall (d : float) (vertex : V64.t) (fuel : nat),
    (List.length points < fuel)%nat ->
    (forall k, (k < List.length points)%nat ->
       (B.stepped step d k <=? CP64.length p)%float = true
       /\ CP64._vertex_at p (B.stepped step d k) = Ok (nth k points B.NULLVEC)) ->
    (B.stepped step d (List.length points) <=? CP64.length p)%float = false ->
    CP64.divide_by_length_loop fuel p (CP64.length p) step d vertex
    = Some (points, Ok (last points vertex)).
Proof.
  induction points as [| v points IH]; intros d vertex fuel Hfuel Hin Hout;
    (destruct fuel as [| fuel]; [cbn in Hfuel; lia |]);
    cbn [CP64.divide_by_length_loop].
  - cbn in Hout. rewrite Hout. reflexivity.
  - destruct (Hin 0%nat) as (H0 & Hv); [cbn; lia |].
    cbn in H0, Hv. rewrite H0, Hv.
    rewrite (IH (d + step)%float v fuel).
    + rewrite last_cons. reflexivity.
    + cbn in Hfuel. lia.
    + intros k Hk. apply (Hin (S k)). cbn. lia.
    + exact Hout.
Qed.

(** C7, as amended. For every polyline with at least 2 vertices and every
    step_length > 0: when [points] are the points [vertex_at(d)] at the
    distances d the loop accumulates (0, then one binary64 addition of
    step_length at a time) as long as d <= length, [divide_by_length] ends
    without an exception and yields exactly these points, followed with
    [force_last] by the last vertex exactly when the last of them is not
    within tolerance of it.  On a polyline of length 7 with step 2.5 they
    are the points at the distances 0, 2.5 and 5; on the L-shape (0,0),
    (3,0), (3,4) they are (0,0), (2.5,0), (3,2), followed by the final
    vertex (3,4) when [force_last] is true. *)
Theorem C7_divide_by_length :
  (forall (p : CP64.t) (step : float) (force_last : bool)
          (points : list V64.t) (fuel : nat),
      (2 <= CP64.__len__ p)%Z -> (step <=? 0)%float = false ->
      (forall k, (k < List.length points)%nat ->
         (B.stepped step 0 k <=? CP64.length p)%float = true
         /\ CP64.vertex_at p (B.stepped step 0 k) = Ok (nth k points B.NULLVEC)) ->
      (B.stepped step 0 (List.length points) <=? CP64.length p)%float = false ->
      (List.length points < fuel)%nat ->
      CP64.divide_by_length fuel p step force_last
      = Some (points ++ B.forced_last p force_last (last points B.NULLVEC), None))
  /\ (forall (p : CP64.t) (force_last : bool) (v0 v1 v2 : V64.t) (fuel : nat),
         (2 <= CP64.__len__ p)%Z -> CP64.length p = 7%float ->
         CP64.vertex_at p 0 = Ok v0 ->
         CP64.vertex_at p 2.5 = Ok v1 ->
         CP64.vertex_at p 5 = Ok v2 ->
         (3 < fuel)%nat ->
         CP64.divide_by_length fuel p 2.5 force_last
         = Some ([v0; v1; v2] ++ B.forced_last p force_last v2, None))
  /\ (forall fuel : nat, (3 < fuel)%nat ->
         let p := CP64.__init__ B.lshape false B.polyline.REL_TOL in
         CP64.divide_by_length fuel p 2.5 false
         = Some ([B.xy 0 0; B.xy 2.5 0; B.xy 3 2], None)
         /\ CP64.divide_by_length fuel p 2.5 true
            = Some ([B.xy 0 0; B.xy 2.5 0; B.xy 3 2; B.xy 3 4], None)).
Proof.
  assert (Hsteps : forall (p : CP64.t) (step : float) (force_last : bool)
                     (points : list V64.t) (fuel : nat),
             (2 <= CP64.__len__ p)%Z -> (step <=? 0)%float = false ->
             (forall k, (k < List.length points)%nat ->
                (B.stepped step 0 k <=? CP64.length p)%float = true
                /\ CP64.vertex_at p (B.stepped step 0 k)
                   = Ok (nth k points B.NULLVEC)) ->
             (B.stepped step 0 (List.length points) <=? CP64.length p)%float
             = false ->
             (List.length points < fuel)%nat ->
             CP64.divide_by_length fuel p step force_last
             = Some (points ++ B.forced_last p force_last (last points B.NULLVEC),
                     None)).
  { intros p step force_last points fuel Hn Hstep Hin Hout Hfuel.
    unfold CP64.divide_by_length. rewrite Hstep.
    destruct (Z.ltb_spec (CP64.__len__ p) 2) as [Hlt | _]; [lia |].
    rewrite (divide_by_length_loop64 p step points 0%float B.NULLVEC fuel Hfuel).
    - unfold B.forced_last.
      destruct (force_last && _)%bool; [reflexivity |].
      rewrite app_nil_r. reflexivity.
    - intros k Hk. destruct (Hin k Hk) as (Hle & Hv).
      split; [exact Hle | apply vertex_at64_ok; exact Hv].
    - exact Hout. }
  assert (Hseven : forall (p : CP64.t) (force_last : bool) (v0 v1 v2 : V64.t)
                     (fuel : nat),
             (2 <= CP64.__len__ p)%Z -> CP64.length p = 7%float ->
             CP64.vertex_at p 0 = Ok v0 ->
             CP64.vertex_at p 2.5 = Ok v1 ->
             CP64.vertex_at p 5 = Ok v2 ->
             (3 < fuel)%nat ->
             CP64.divide_by_length fuel p 2.5 force_last
             = Some ([v0; v1; v2] ++ B.forced_last p force_last v2, None)).
  { intros p force_last v0 v1 v2 fuel Hn Hlen H0 H1 H2 Hfuel.
    apply (Hsteps p 2.5%float force_last [v0; v1; v2] fuel Hn).
    - vm_compute. reflexivity.
    - rewrite Hlen. intros [| [| [| k]]] Hk; cbn in Hk; try lia.
      + split; [vm_compute; reflexivity | exact H0].
      + split; [vm_compute; reflexivity |].
        replace (B.stepped 2.5 0 1) with 2.5%float by (vm_compute; reflexivity).
        exact H1.
      + split; [vm_compute; reflexivity |].
        replace (B.stepped 2.5 0 2) with 5%float by (vm_compute; reflexivity).
        exact H2.
    - rewrite Hlen. vm_compute. reflexivity.
    - exact Hfuel. }
  split; [exact Hsteps |]. split; [exact Hseven |].
  intros fuel Hfuel p.
  assert (Hlshape : forall force_last,
             CP64.divide_by_length fuel p 2.5 force_last
             = Some ([B.xy 0 0; B.xy 2.5 0; B.xy 3 2]
                       ++ B.forced_last p force_last (B.xy 3 2), None)).
  { intros force_last. apply Hseven; try exact Hfuel;
      try (vm_compute; reflexivity).
    unfold p, CP64.__len__, len. cbn. lia. }
  split; rewrite Hlshape; vm_compute; reflexivity.
Qed.

Lemma C7_divide_by_length_witness :
  let p := CP64.__init__ B.lshape false B.polyline.REL_TOL in
  CP64.divide_by_length 4 p 2.5 true
  = Some ([B.xy 0 0; B.xy 2.5 0; B.xy 3 2]
            ++ B.forced_last p true (B.xy 3 2), None).
Proof.
  destruct C7_divide_by_length as (_ & Hseven & _).
  apply (Hseven (CP64.__init__ B.lshape false B.polyline.REL_TOL) true
           (B.xy 0 0) (B.xy 2.5 0) (B.xy 3 2) 4%nat).
  - unfold CP64.__len__, len. cbn. lia.
  - vm_compute. reflexivity.
  - vm_compute. reflexivity.
  - vm_compute. reflexivity.
  - vm_compute. reflexivity.
  - lia.
Defined.

(** C7, as stated, fails twice.  On the L-shape of length 7 with step 0.7,
    floor(7 / 0.7) + 1 is 11, but the tenth sum of 0.7 is
    7.000000000000001 > 7 and 10 points are yielded.  On the folded path
    (0,0), (6,0), (5,0) of length 7 with step 2.5 and [force_last], the
    point at the distance 5 is the last vertex, and no further point is
    yielded. *)
Lemma C7_divide_by_length_counterexample :
  (let p := CP64.__init__ B.lshape false B.polyline.REL_TOL in
   CP64.length p = 7%float
   /\ B.floor (7 / 0.7) = Ok 10%Z
   /\ B.stepped 0.7 0 10 = 7.000000000000001%float
   /\ exists points : list V64.t,
        CP64.divide_by_length 12 p 0.7 false = Some (points, None)
        /\ List.length points = 10%nat)
  /\ (let p := CP64.__init__ B.folded false B.polyline.REL_TOL in
      CP64.length p = 7%float
      /\ CP64.divide_by_length 4 p 2.5 true
         = Some ([B.xy 0 0; B.xy 2.5 0; B.xy 5 0], None)).
Proof.
  split.
  - split; [vm_compute; reflexivity |].
    split; [vm_compute; reflexivity |].
    split; [vm_compute; reflexivity |].
    eexists. split; vm_compute; reflexivity.
  - split; vm_compute; reflexivity.
Qed.
